(** * Post Management API (server.js): a shallow embedding and its properties

    The service keeps an in-memory array [posts] and stores uploaded media
    under [uploads/images] and [uploads/videos].  Every route handler of
    server.js is embedded as a function from the state of the process and
    the request to a response and the next state.

    Modelling conventions:
    - a JavaScript string is a [string] whose characters are code units in
      the range 0..255;
    - a value in a request body or in a post is [undefined], [null] or a
      string: the routes document their fields as optional strings, a
      multipart field is a string, and the handler itself writes [null];
    - [uuidv4()], [Date.now()] and [path.extname] come from outside the
      repository; their results are taken from an environment [Env], the
      n-th draw being a function of n;
    - the disk is a finite map from paths to contents, relative to the
      directory of server.js, which is taken to be the working directory;
      [fs.mkdirSync(dir, {recursive: true})] creates what is missing of
      [dir] and is not recorded, and [path.join(dir, name)] is
      [dir/name], the generated names having no separator;
    - a creation request carries at most one file part named [image] and
      at most one named [video], as [upload.fields] demands; the parts are
      stored image first;
    - [res.json] is modelled by the JSON value it serialises. *)

From Stdlib Require Import String Ascii Strings.Byte List NArith Lia Bool.
From Stdlib Require Import DecimalString.
From stdpp Require Import base option list gmap strings.

Set Warnings "-register-all".
Local Open Scope string_scope.

(** ** JavaScript values and coercions *)

Inductive JsVal : Type :=
| JsUndefined
| JsNull
| JsString (s : string).

#[global] Instance JsVal_eq_dec : EqDecision JsVal.
Proof. solve_decision. Defined.

(** ToBoolean: [undefined], [null] and the empty string are falsy. *)
Definition truthy (v : JsVal) : bool :=
  match v with
  | JsUndefined => false
  | JsNull => false
  | JsString s => negb (String.eqb s "")
  end.

(** [a || b] *)
Definition js_or (a b : JsVal) : JsVal := if truthy a then a else b.

(** [a === s] for a string [s]: no coercion, equal only to the same string. *)
Definition strict_eq_string (a : JsVal) (s : string) : bool :=
  match a with
  | JsString t => String.eqb t s
  | _ => false
  end.

(** *** StringToNumber: which strings coerce to a number other than NaN

    [isNaN(x)] is [Number(x)] being NaN.  For a string this is decided by
    the StringNumericLiteral grammar of ECMAScript: optional white space
    around nothing at all, or around a signed decimal literal, [Infinity],
    or an unsigned binary, octal or hexadecimal integer literal. *)

Module StringToNumber.

Definition code (c : ascii) : N := N_of_ascii c.

(** StrWhiteSpaceChar, restricted to code units below 256: TAB, LF, VT,
    FF, CR, SP and NBSP. *)
Definition is_white_space (c : ascii) : bool :=
  match code c with
  | 9 | 10 | 11 | 12 | 13 | 32 | 160 => true
  | _ => false
  end%N.

Definition is_decimal_digit (c : ascii) : bool :=
  (48 <=? code c)%N && (code c <=? 57)%N.

Definition is_binary_digit (c : ascii) : bool :=
  (48 <=? code c)%N && (code c <=? 49)%N.

Definition is_octal_digit (c : ascii) : bool :=
  (48 <=? code c)%N && (code c <=? 55)%N.

Definition is_hex_digit (c : ascii) : bool :=
  is_decimal_digit c
  || ((65 <=? code c)%N && (code c <=? 70)%N)
  || ((97 <=? code c)%N && (code c <=? 102)%N).

Definition is_sign (c : ascii) : bool :=
  Ascii.eqb c "+" || Ascii.eqb c "-".

Definition is_exponent_indicator (c : ascii) : bool :=
  Ascii.eqb c "e" || Ascii.eqb c "E".

Fixpoint skip_white_space (cs : list ascii) : list ascii :=
  match cs with
  | c :: rest => if is_white_space c then skip_white_space rest else cs
  | [] => []
  end.

Definition trim (cs : list ascii) : list ascii :=
  rev (skip_white_space (rev (skip_white_space cs))).

(** Splits off the longest prefix of decimal digits. *)
Fixpoint span_digits (cs : list ascii) : list ascii * list ascii :=
  match cs with
  | c :: rest =>
      if is_decimal_digit c
      then let '(ds, tl) := span_digits rest in (c :: ds, tl)
      else ([], cs)
  | [] => ([], [])
  end.

Definition nonempty {A} (l : list A) : bool :=
  match l with [] => false | _ :: _ => true end.

(** DecimalDigits *)
Definition decimal_digits (cs : list ascii) : bool :=
  nonempty cs && forallb is_decimal_digit cs.

Definition strip_sign (cs : list ascii) : list ascii :=
  match cs with
  | c :: rest => if is_sign c then rest else cs
  | [] => []
  end.

(** ExponentPart, optional: nothing, or [e]/[E] and a SignedInteger. *)
Definition exponent_part_opt (cs : list ascii) : bool :=
  match cs with
  | [] => true
  | c :: rest => is_exponent_indicator c && decimal_digits (strip_sign rest)
  end.

(** StrUnsignedDecimalLiteral: [Infinity], or digits with an optional
    fraction and exponent, or a fraction with an optional exponent. *)
Definition str_unsigned_decimal_literal (cs : list ascii) : bool :=
  if String.eqb (string_of_list_ascii cs) "Infinity" then true
  else
    let '(int_part, rest) := span_digits cs in
    match rest with
    | c :: rest' =>
        if Ascii.eqb c "." then
          let '(frac_part, rest'') := span_digits rest' in
          (nonempty int_part || nonempty frac_part)
          && exponent_part_opt rest''
        else nonempty int_part && exponent_part_opt rest
    | [] => nonempty int_part
    end.

(** StrDecimalLiteral: an optional sign and an unsigned literal. *)
Definition str_decimal_literal (cs : list ascii) : bool :=
  str_unsigned_decimal_literal (strip_sign cs).

(** NonDecimalIntegerLiteral: [0b], [0o], [0x] prefixes, no sign. *)
Definition non_decimal_integer_literal (cs : list ascii) : bool :=
  match cs with
  | z :: p :: ds =>
      Ascii.eqb z "0"
      && ((Ascii.eqb p "b" || Ascii.eqb p "B")
            && nonempty ds && forallb is_binary_digit ds
          || (Ascii.eqb p "o" || Ascii.eqb p "O")
               && nonempty ds && forallb is_octal_digit ds
          || (Ascii.eqb p "x" || Ascii.eqb p "X")
               && nonempty ds && forallb is_hex_digit ds)
  | _ => false
  end.

(** StringNumericLiteral: the string parses, so its value is not NaN. *)
Definition parses (s : string) : bool :=
  match trim (list_ascii_of_string s) with
  | [] => true
  | cs => str_decimal_literal cs || non_decimal_integer_literal cs
  end.

(** A character that is not white space. *)
Definition solid (c : ascii) : Prop := is_white_space c = false.

(** What may follow the digits that [span_digits] splits off. *)
Definition no_digit_ahead (cs : list ascii) : Prop :=
  match cs with
  | [] => True
  | c :: _ => is_decimal_digit c = false
  end.

(** The StringNumericLiteral grammar, production by production. *)

Definition StrWhiteSpace_opt (cs : list ascii) : Prop :=
  Forall (fun c => is_white_space c = true) cs.

Definition DecimalDigits (cs : list ascii) : Prop :=
  cs <> [] /\ Forall (fun c => is_decimal_digit c = true) cs.

Definition optional (P : list ascii -> Prop) (cs : list ascii) : Prop :=
  cs = [] \/ P cs.

Inductive SignedInteger : list ascii -> Prop :=
| SignedInteger_digits ds :
    DecimalDigits ds -> SignedInteger ds
| SignedInteger_signed c ds :
    is_sign c = true -> DecimalDigits ds -> SignedInteger (c :: ds).

Inductive ExponentPart : list ascii -> Prop :=
| ExponentPart_intro c si :
    is_exponent_indicator c = true -> SignedInteger si ->
    ExponentPart (c :: si).

Inductive StrUnsignedDecimalLiteral : list ascii -> Prop :=
| Unsigned_Infinity :
    StrUnsignedDecimalLiteral (list_ascii_of_string "Infinity")
| Unsigned_int_frac ds fs e :
    DecimalDigits ds -> optional DecimalDigits fs -> optional ExponentPart e ->
    StrUnsignedDecimalLiteral (ds ++ "."%char :: fs ++ e)
| Unsigned_frac fs e :
    DecimalDigits fs -> optional ExponentPart e ->
    StrUnsignedDecimalLiteral ("."%char :: fs ++ e)
| Unsigned_int ds e :
    DecimalDigits ds -> optional ExponentPart e ->
    StrUnsignedDecimalLiteral (ds ++ e).

Inductive StrDecimalLiteral : list ascii -> Prop :=
| Decimal_unsigned cs :
    StrUnsignedDecimalLiteral cs -> StrDecimalLiteral cs
| Decimal_signed c cs :
    is_sign c = true -> StrUnsignedDecimalLiteral cs ->
    StrDecimalLiteral (c :: cs).

Inductive NonDecimalIntegerLiteral : list ascii -> Prop :=
| Binary_literal p ds :
    Ascii.eqb p "b" || Ascii.eqb p "B" = true ->
    ds <> [] -> Forall (fun c => is_binary_digit c = true) ds ->
    NonDecimalIntegerLiteral ("0"%char :: p :: ds)
| Octal_literal p ds :
    Ascii.eqb p "o" || Ascii.eqb p "O" = true ->
    ds <> [] -> Forall (fun c => is_octal_digit c = true) ds ->
    NonDecimalIntegerLiteral ("0"%char :: p :: ds)
| Hex_literal p ds :
    Ascii.eqb p "x" || Ascii.eqb p "X" = true ->
    ds <> [] -> Forall (fun c => is_hex_digit c = true) ds ->
    NonDecimalIntegerLiteral ("0"%char :: p :: ds).

Inductive StringNumericLiteral : list ascii -> Prop :=
| Numeric_blank ws :
    StrWhiteSpace_opt ws -> StringNumericLiteral ws
| Numeric_literal ws1 cs ws2 :
    StrWhiteSpace_opt ws1 ->
    StrDecimalLiteral cs \/ NonDecimalIntegerLiteral cs ->
    StrWhiteSpace_opt ws2 ->
    StringNumericLiteral (ws1 ++ cs ++ ws2).

End StringToNumber.

(** [isNaN(v)]: [Number(undefined)] is NaN, [Number(null)] is 0. *)
Definition js_isNaN (v : JsVal) : bool :=
  match v with
  | JsUndefined => true
  | JsNull => false
  | JsString s => negb (StringToNumber.parses s)
  end.

(** ** JSON response bodies

    [res.json(x)] sends [JSON.stringify(x)]: the members of an object in the
    order of its properties, a property holding [undefined] left out, a
    property holding [null] kept as [null]. *)

Inductive Json : Type :=
| JNull
| JStr (s : string)
| JArr (items : list Json)
| JObj (members : list (string * Json)).

Definition member (key : string) (v : JsVal) : list (string * Json) :=
  match v with
  | JsUndefined => []
  | JsNull => [(key, JNull)]
  | JsString s => [(key, JStr s)]
  end.

(** The value of member [key] of a JSON object, if it has one. *)
Fixpoint assoc (key : string) (ms : list (string * Json)) : option Json :=
  match ms with
  | [] => None
  | (k, v) :: rest => if String.eqb k key then Some v else assoc key rest
  end.

Definition json_get (key : string) (j : Json) : option Json :=
  match j with
  | JObj ms => assoc key ms
  | _ => None
  end.

(** ** Data model *)

(** A post, as built by the creation handler (server.js, lines 143-150). *)
Record Post : Type := mkPost {
  id : JsVal;
  title : JsVal;
  description : JsVal;
  image : JsVal;
  video : JsVal;
  actress : JsVal
}.

Definition post_json (p : Post) : Json :=
  JObj (member "id" (id p) ++ member "title" (title p)
        ++ member "description" (description p) ++ member "image" (image p)
        ++ member "video" (video p) ++ member "actress" (actress p)).

(** A file part of a multipart request, as multer hands it to the storage
    engine. *)
Record Upload : Type := mkUpload {
  originalname : string;
  mimetype : string;
  buffer : list Byte.byte
}.

(** The file parts that [upload.fields] admits: at most one named [image]
    and at most one named [video]. *)
Record Parts : Type := mkParts {
  image_part : option Upload;
  video_part : option Upload
}.

(** What multer records about a stored file in [req.files]. *)
Record StoredFile : Type := mkStoredFile {
  destination_of : string;
  filename_of : string;
  path_of : string
}.

(** [req.files]: [req.files['image']] and [req.files['video']], each absent
    or an array whose first element is the stored file. *)
Record ReqFiles : Type := mkReqFiles {
  files_image : option StoredFile;
  files_video : option StoredFile
}.

(** The state of the process: the array [posts], the files on disk, and the
    number of values drawn so far from the token generator and the clock. *)
Record World : Type := mkWorld {
  posts : list Post;
  disk : gmap string (list Byte.byte);
  draws : nat
}.

(** [let posts = []] on an empty upload directory. *)
Definition initial_world : World :=
  {| posts := []; disk := ∅; draws := 0 |}.

Record Response : Type := mkResponse {
  status : nat;
  body : Json
}.

Definition message (text : string) : Json := JObj [("message", JStr text)].

(** A property of [req.body]: [undefined] when the request has no such
    field. *)
Definition field (b : gmap string JsVal) (key : string) : JsVal :=
  default JsUndefined (b !! key).

(** [Array.prototype.findIndex], with [None] for -1. *)
Fixpoint findIndex {A} (f : A -> bool) (l : list A) : option nat :=
  match l with
  | [] => None
  | x :: rest => if f x then Some 0 else S <$> findIndex f rest
  end.

(** The element that [Array.prototype.find] returns is the array's own
    object; [mutate_found f g l] is the array after that object has been
    changed by [g]. *)
Fixpoint mutate_found {A} (f : A -> bool) (g : A -> A) (l : list A) : list A :=
  match l with
  | [] => []
  | x :: rest => if f x then g x :: rest else x :: mutate_found f g rest
  end.

(** [p => p.id === req.params.id] *)
Definition has_id (rid : string) (p : Post) : bool :=
  strict_eq_string (id p) rid.

(** The decimal digits of [`${n}`] for a non-negative integer. *)
Definition decimal (n : N) : string := NilZero.string_of_uint (N.to_uint n).

(** ** The handlers *)

(** What the handlers take from outside the repository: [uuidv4 n] and
    [date_now n] are the results of the [n]-th draw of [uuidv4()] and
    [Date.now()]; [extname] is [path.extname]. *)
Record Env : Type := mkEnv {
  uuidv4 : nat -> string;
  date_now : nat -> N;
  extname : string -> string
}.

Section Handlers.

Variable env : Env.

(** *** Storage engine (server.js, lines 48-58) *)

Definition destination (file : Upload) : string :=
  let fileType :=
    if String.prefix "video" (mimetype file) then "videos" else "images" in
  "uploads/" ++ fileType.

Definition filename (n : nat) (file : Upload) : string :=
  uuidv4 env n ++ "-" ++ decimal (date_now env n)
  ++ extname env (originalname file).

(** multer's disk storage asks for the destination and the file name and
    writes the part's bytes to the file [destination/filename]. *)
Definition store_file (w : World) (file : Upload) : StoredFile * World :=
  let dir := destination file in
  let name := filename (draws w) file in
  let final_path := dir ++ "/" ++ name in
  ({| destination_of := dir; filename_of := name; path_of := final_path |},
   {| posts := posts w;
      disk := <[final_path := buffer file]> (disk w);
      draws := S (draws w) |}).

Definition store_part (w : World) (part : option Upload)
  : option StoredFile * World :=
  match part with
  | Some file => let '(f, w') := store_file w file in (Some f, w')
  | None => (None, w)
  end.

(** [upload.fields([{name: 'image', maxCount: 1}, {name: 'video',
    maxCount: 1}])]: every file part is stored before the handler runs. *)
Definition upload_fields (w : World) (parts : Parts) : ReqFiles * World :=
  let '(i, w1) := store_part w (image_part parts) in
  let '(v, w2) := store_part w1 (video_part parts) in
  ({| files_image := i; files_video := v |}, w2).

(** *** POST /posts (server.js, lines 127-160) *)

Definition create_post (w : World) (b : gmap string JsVal) (files : ReqFiles)
  : Response * World :=
  let id := field b "id" in
  let title := field b "title" in
  let description := field b "description" in
  let actress := field b "actress" in
  if truthy id && js_isNaN id then
    ({| status := 400; body := message "ID must be a valid number" |}, w)
  else
    let '(postId, n) :=
      if truthy id then (id, draws w)
      else (JsString (uuidv4 env (draws w)), S (draws w)) in
    let image :=
      match files_image files with
      | Some f => JsString ("/uploads/images/" ++ filename_of f)
      | None => JsNull
      end in
    let video :=
      match files_video files with
      | Some f => JsString ("/uploads/videos/" ++ filename_of f)
      | None => JsNull
      end in
    let newPost :=
      {| id := postId; title := title; description := description;
         image := image; video := video; actress := actress |} in
    ({| status := 201;
        body := JObj [("message", JStr "Post created successfully");
                      ("post", post_json newPost)] |},
     {| posts := posts w ++ [newPost]; disk := disk w; draws := n |}).

Definition post_posts (w : World) (b : gmap string JsVal) (parts : Parts)
  : Response * World :=
  let '(files, w') := upload_fields w parts in
  create_post w' b files.

(** *** GET /posts (server.js, lines 192-194) *)

Definition get_posts (w : World) : Response * World :=
  ({| status := 200; body := JArr (map post_json (posts w)) |}, w).

(** *** GET /posts/:id (server.js, lines 215-222) *)

Definition get_post (w : World) (rid : string) : Response * World :=
  match List.find (has_id rid) (posts w) with
  | Some post => ({| status := 200; body := post_json post |}, w)
  | None => ({| status := 404; body := message "Post not found" |}, w)
  end.

(** *** PUT /posts/:id (server.js, lines 260-272) *)

(** [post.title = v], [post.description = v] and [post.actress = v]: an
    assignment replaces one property of the object. *)
Definition set_title (v : JsVal) (post : Post) : Post :=
  {| id := id post; title := v; description := description post;
     image := image post; video := video post; actress := actress post |}.

Definition set_description (v : JsVal) (post : Post) : Post :=
  {| id := id post; title := title post; description := v;
     image := image post; video := video post; actress := actress post |}.

Definition set_actress (v : JsVal) (post : Post) : Post :=
  {| id := id post; title := title post; description := description post;
     image := image post; video := video post; actress := v |}.

(** The three assignments of lines 265-267, in their order. *)
Definition assign_fields (b : gmap string JsVal) (post : Post) : Post :=
  let post := set_title (js_or (field b "title") (title post)) post in
  let post :=
    set_description (js_or (field b "description") (description post)) post in
  set_actress (js_or (field b "actress") (actress post)) post.

Definition put_post (w : World) (rid : string) (b : gmap string JsVal)
  : Response * World :=
  match List.find (has_id rid) (posts w) with
  | Some post =>
      ({| status := 200;
          body := JObj [("message", JStr "Post updated successfully");
                        ("post", post_json (assign_fields b post))] |},
       {| posts := mutate_found (has_id rid) (assign_fields b) (posts w);
          disk := disk w; draws := draws w |})
  | None => ({| status := 404; body := message "Post not found" |}, w)
  end.

(** *** DELETE /posts/:id (server.js, lines 293-302) *)

Definition delete_post (w : World) (rid : string) : Response * World :=
  match findIndex (has_id rid) (posts w) with
  | Some postIndex =>
      ({| status := 200; body := message "Post deleted successfully" |},
       {| posts := delete postIndex (posts w);
          disk := disk w; draws := draws w |})
  | None => ({| status := 404; body := message "Post not found" |}, w)
  end.

(** *** The service as a state machine *)

Inductive Request : Type :=
| POST_posts (b : gmap string JsVal) (parts : Parts)
| GET_posts
| GET_post (rid : string)
| PUT_post (rid : string) (b : gmap string JsVal)
| DELETE_post (rid : string).

Definition handle (w : World) (r : Request) : Response * World :=
  match r with
  | POST_posts b parts => post_posts w b parts
  | GET_posts => get_posts w
  | GET_post rid => get_post w rid
  | PUT_post rid b => put_post w rid b
  | DELETE_post rid => delete_post w rid
  end.

(** The responses to a sequence of requests served one after the other,
    and the state they leave. *)
Fixpoint serve (w : World) (rs : list Request) : list Response * World :=
  match rs with
  | [] => ([], w)
  | r :: rest =>
      let '(resp, w1) := handle w r in
      let '(resps, w2) := serve w1 rest in
      (resp :: resps, w2)
  end.

End Handlers.

(** ** Sample environment, for evaluating the handlers *)

Definition sample_uuidv4 (n : nat) : string :=
  "1b9d6bcd-bbfd-4b2d-9b5d-ab8dfbbd4b" ++ decimal (N.of_nat (10 + n mod 90)).

Definition sample_date_now (n : nat) : N := 1700000000000 + N.of_nat n.

(** The extension as [path.extname] gives it for a plain file name with a
    dot after its first character: the text from the last dot on. *)
Fixpoint last_dot (acc : option string) (s : string) : option string :=
  match s with
  | EmptyString => acc
  | String c rest =>
      last_dot (if Ascii.eqb c "." then Some s else acc) rest
  end.

Definition sample_extname (name : string) : string :=
  match name with
  | EmptyString => ""
  | String _ rest => default "" (last_dot None rest)
  end.

Definition sample_env : Env :=
  {| uuidv4 := sample_uuidv4;
     date_now := sample_date_now;
     extname := sample_extname |}.

(** [express.static] mounted at [/uploads] on the directory [uploads]
    (server.js, line 21): the file that a public reference names when it
    is taken character for character.  The route itself reads a reference
    as a URL, so this is the file it serves only for references that a
    URL carries as they are (no query mark, no percent sign). *)
Definition static_file (url : string) : option string :=
  match url with
  | String "/" rest => if String.prefix "uploads/" rest then Some rest else None
  | _ => None
  end.

Definition serve_static (w : World) (url : string) : option (list Byte.byte) :=
  static_file url ≫= fun path => disk w !! path.

(** ** Statements about states and traces *)

(** A non-empty identifier: a string other than the empty one. *)
Definition nonempty_id (p : Post) : Prop :=
  exists s, id p = JsString s /\ s <> "".

Definition ids_nonempty (w : World) : Prop := Forall nonempty_id (posts w).

(** The body of the 201 response for the record [p]. *)
Definition created_body (p : Post) : Json :=
  JObj [("message", JStr "Post created successfully"); ("post", post_json p)].

(** The body of the 200 response of an update that leaves the record [p]. *)
Definition updated_body (p : Post) : Json :=
  JObj [("message", JStr "Post updated successfully"); ("post", post_json p)].

(** The record that the creation handler builds. *)
Definition new_post
    (env : Env) (w : World) (b : gmap string JsVal) (files : ReqFiles)
  : Post :=
  {| id := if truthy (field b "id") then field b "id"
           else JsString (uuidv4 env (draws w));
     title := field b "title";
     description := field b "description";
     image := match files_image files with
              | Some f => JsString ("/uploads/images/" ++ filename_of f)
              | None => JsNull
              end;
     video := match files_video files with
              | Some f => JsString ("/uploads/videos/" ++ filename_of f)
              | None => JsNull
              end;
     actress := field b "actress" |}.

(** [new] is [supplied || old]. *)
Definition coalesced (old new supplied : JsVal) : Prop :=
  (truthy supplied = true -> new = supplied)
  /\ (truthy supplied = false -> new = old).

(** The two media of a post: the file part, the field of the record and
    the key of the JSON member that belong to each. *)
Inductive Media : Type := Image | Video.


Definition media_field (m : Media) (p : Post) : JsVal :=
  match m with Image => image p | Video => video p end.

Definition media_key (m : Media) : string :=
  match m with Image => "image" | Video => "video" end.


(** Where the element at index [k] of [posts] is after the request [r] has
    been served: [splice] moves the elements behind the removed one down by
    one place, and nothing else moves an element. *)
Definition index_after (w : World) (r : Request) (k : nat) : option nat :=
  match r with
  | DELETE_post rid =>
      match findIndex (has_id rid) (posts w) with
      | Some i =>
          if decide (i = k) then None
          else if decide (i < k) then Some (pred k) else Some k
      | None => Some k
      end
  | _ => Some k
  end.

Section Traces.
Variable env : Env.

(** The same along a sequence of requests. *)
Fixpoint index_after_all (w : World) (rs : list Request) (k : nat)
  : option nat :=
  match rs with
  | [] => Some k
  | r :: rest =>
      match index_after w r k with
      | Some k' =>
          index_after_all (snd (handle env w r)) rest k'
      | None => None
      end
  end.

(** Creating a post with id 42 and reading [/posts/42] back: the creation
    answers 201 with a record, and the read answers 200 with that
    record. *)
Definition reads_back_created
    (w : World) (b : gmap string JsVal) (parts : Parts) : Prop :=
  let '(r1, w1) := post_posts env w b parts in
  let '(r2, _) := get_post w1 "42" in
  status r1 = 201 /\ status r2 = 200
  /\ json_get "post" (body r1) = Some (body r2).

End Traces.

(** After a successful [DELETE /posts/rid], [GET /posts/rid] and a second
    [DELETE /posts/rid] both answer 404. *)
Definition gone_after_delete (w : World) (rid : string) : Prop :=
  let '(r1, w1) := delete_post w rid in
  status r1 = 200 ->
  fst (get_post w1 rid)
    = {| status := 404; body := message "Post not found" |}
  /\ fst (delete_post w1 rid)
    = {| status := 404; body := message "Post not found" |}.

(** ** Further statements about uploads and traces *)

(** The directory that belongs to a medium. *)
Definition media_dir (m : Media) : string :=
  match m with Image => "images" | Video => "videos" end.

(** The medium that the storage engine takes a file for (line 50). *)
Definition classified (file : Upload) : Media :=
  if String.prefix "video" (mimetype file) then Video else Image.

(** A request whose only file part is [file], in the part named after
    [m]. *)
Definition only (m : Media) (file : Upload) : Parts :=
  match m with
  | Image => {| image_part := Some file; video_part := None |}
  | Video => {| image_part := None; video_part := Some file |}
  end.

(** The file that the [n]-th draw stores [file] in. *)
Definition stored_path (env : Env) (n : nat) (file : Upload) : string :=
  destination file ++ "/" ++ filename env n file.

(** The reference that the creation handler writes into the record for a
    file stored under the name [name] (lines 139-140). *)
Definition reference (m : Media) (name : string) : string :=
  "/uploads/" ++ media_dir m ++ "/" ++ name.

(** Creations answered 201 and deletions answered 200 among the requests
    [rs] with the responses [resps]. *)
Definition is_created (x : Request * Response) : bool :=
  match fst x with
  | POST_posts _ _ => Nat.eqb (status (snd x)) 201
  | _ => false
  end.

Definition is_deleted (x : Request * Response) : bool :=
  match fst x with
  | DELETE_post _ => Nat.eqb (status (snd x)) 200
  | _ => false
  end.

Definition tally (f : Request * Response -> bool)
    (rs : list Request) (resps : list Response) : nat :=
  length (List.filter f (combine rs resps)).

(** The characters that occur in the strings of the StringNumericLiteral
    grammar: white space, digits, signs, the dot, the letters of the
    hexadecimal digits, of the exponent, of the radix prefixes and of
    [Infinity]. *)
Definition numeric_alphabet (c : ascii) : bool :=
  StringToNumber.is_white_space c
  || StringToNumber.is_hex_digit c
  || StringToNumber.is_sign c
  || existsb (Ascii.eqb c) (list_ascii_of_string ".oOxXInity").

(** No token of the generator, followed by anything, reads like another
    token followed by anything: the tokens are distinct and none continues
    another. *)
Definition tokens_never_collide (env : Env) : Prop :=
  forall n m x y, uuidv4 env n ++ x = uuidv4 env m ++ y -> n = m.

Definition is_creation (r : Request) : bool :=
  match r with POST_posts _ _ => true | _ => false end.

(** An environment whose tokens never collide: the [n]-th token is [n]
    times the digit 1 and then the digit 0. *)
Fixpoint unary_token (n : nat) : string :=
  match n with
  | O => "0"
  | S k => String "1" (unary_token k)
  end.

Definition unary_env : Env :=
  {| uuidv4 := unary_token;
     date_now := sample_date_now;
     extname := sample_extname |}.

(** What a record [p] has become when it is [p'] later: the id, the image
    and the video are the same, and a title, description or actress that
    was truthy is truthy. *)
Definition kept (p p' : Post) : Prop :=
  id p' = id p /\ image p' = image p /\ video p' = video p
  /\ (truthy (title p) = true -> truthy (title p') = true)
  /\ (truthy (description p) = true -> truthy (description p') = true)
  /\ (truthy (actress p) = true -> truthy (actress p') = true).

(** ** Sample requests *)

Definition no_parts : Parts := {| image_part := None; video_part := None |}.

Definition sample_post (i t : string) : Request :=
  POST_posts {[ "id" := JsString i; "title" := JsString t ]} no_parts.

Definition sample_serve (w : World) (rs : list Request)
  : list Response * World :=
  serve sample_env w rs.

(** A file sent in the part named [image] with a video content type. *)
Definition mislabelled_image : Parts :=
  {| image_part :=
       Some {| originalname := "clip.mp4"; mimetype := "video/mp4";
               buffer := [x01; x02; x03]%byte |};
     video_part := None |}.

(** The state after one post with id 42 has been created. *)
Definition older_42 : World :=
  snd (sample_serve initial_world [sample_post "42" "older"]).

(** The state after one post, and after two posts, with id 5 have been
    created. *)
Definition one_five : World :=
  snd (sample_serve initial_world [sample_post "5" "first"]).

Definition two_fives : World :=
  snd (sample_serve initial_world
         [sample_post "5" "first"; sample_post "5" "second"]).

(** Two uploads with content types of their kind. *)
Definition sample_video : Upload :=
  {| originalname := "clip.mp4"; mimetype := "video/mp4";
     buffer := [x01; x02; x03]%byte |}.

Definition sample_image : Upload :=
  {| originalname := "cat.png"; mimetype := "image/png";
     buffer := [x04; x05]%byte |}.

(** ** The recognizer against the grammar *)

Module StringToNumberFacts.
Import StringToNumber.

Ltac by_cases_on c :=
  destruct c as [[] [] [] [] [] [] [] []]; vm_compute; intuition congruence.

Lemma digit_solid c : is_decimal_digit c = true -> solid c.
Proof. unfold solid. by_cases_on c. Qed.

Lemma digit_not_sign c : is_decimal_digit c = true -> is_sign c = false.
Proof. by_cases_on c. Qed.

Lemma hex_digit_solid c : is_hex_digit c = true -> solid c.
Proof. unfold solid. by_cases_on c. Qed.

Lemma octal_digit_solid c : is_octal_digit c = true -> solid c.
Proof. unfold solid. by_cases_on c. Qed.

Lemma binary_digit_solid c : is_binary_digit c = true -> solid c.
Proof. unfold solid. by_cases_on c. Qed.

Lemma sign_solid c : is_sign c = true -> solid c.
Proof. unfold solid. by_cases_on c. Qed.

Lemma exponent_indicator_solid c : is_exponent_indicator c = true -> solid c.
Proof. unfold solid. by_cases_on c. Qed.

Lemma exponent_indicator_not_digit c :
  is_exponent_indicator c = true -> is_decimal_digit c = false.
Proof. by_cases_on c. Qed.

Lemma radix_prefix_solid c :
  Ascii.eqb c "b" || Ascii.eqb c "B" || Ascii.eqb c "o" || Ascii.eqb c "O"
  || Ascii.eqb c "x" || Ascii.eqb c "X" = true -> solid c.
Proof. unfold solid. by_cases_on c. Qed.

Lemma span_digits_split cs :
  cs = (fst (span_digits cs) ++ snd (span_digits cs))%list
  /\ Forall (fun c => is_decimal_digit c = true) (fst (span_digits cs)).
Proof.
  induction cs as [|c cs [IH1 IH2]]; simpl; [by split|].
  destruct (is_decimal_digit c) eqn:Hc; [|by split].
  destruct (span_digits cs) as [ds tl]; simpl in *.
  split; [by f_equal|by constructor].
Qed.

Lemma span_digits_app ds rest :
  Forall (fun c => is_decimal_digit c = true) ds ->
  no_digit_ahead rest ->
  span_digits (ds ++ rest) = (ds, rest).
Proof.
  intros Hds Hrest. induction Hds as [|c ds Hc _ IH]; simpl.
  - destruct rest as [|c rest]; [done|]. simpl in *. by rewrite Hrest.
  - by rewrite Hc, IH.
Qed.

Lemma skip_white_space_split cs :
  exists ws, cs = (ws ++ skip_white_space cs)%list /\ StrWhiteSpace_opt ws.
Proof.
  induction cs as [|c cs (ws & IH1 & IH2)]; simpl.
  - exists []. by split; [|constructor].
  - destruct (is_white_space c) eqn:Hc.
    + exists (c :: ws). split; [simpl; by f_equal|by constructor].
    + exists []. by split; [|constructor].
Qed.

Lemma skip_white_space_app ws cs :
  StrWhiteSpace_opt ws -> Forall solid cs ->
  skip_white_space (ws ++ cs) = cs.
Proof.
  intros Hws Hcs. induction Hws as [|c ws Hc _ IH]; simpl.
  - destruct Hcs as [|c cs Hc _]; [done|]. simpl. by rewrite Hc.
  - by rewrite Hc.
Qed.

Lemma trim_split cs :
  exists ws1 ws2,
    cs = (ws1 ++ trim cs ++ ws2)%list
    /\ StrWhiteSpace_opt ws1 /\ StrWhiteSpace_opt ws2.
Proof.
  destruct (skip_white_space_split cs) as (ws1 & H1 & Hws1).
  destruct (skip_white_space_split (rev (skip_white_space cs)))
    as (ws2 & H2 & Hws2).
  exists ws1, (rev ws2). split_and!.
  - rewrite H1 at 1. f_equal. unfold trim.
    rewrite <- rev_app_distr, <- H2. by rewrite rev_involutive.
  - done.
  - by apply Forall_rev.
Qed.

Lemma skip_white_space_prefix ws cs :
  StrWhiteSpace_opt ws -> skip_white_space (ws ++ cs) = skip_white_space cs.
Proof.
  intros Hws. induction Hws as [|c ws Hc _ IH]; simpl; [done|]. by rewrite Hc.
Qed.

Lemma skip_white_space_solid c cs :
  solid c -> skip_white_space (c :: cs) = c :: cs.
Proof. intros Hc. simpl. by rewrite Hc. Qed.

Lemma trim_literal ws1 cs ws2 :
  StrWhiteSpace_opt ws1 -> Forall solid cs -> StrWhiteSpace_opt ws2 ->
  trim (ws1 ++ cs ++ ws2) = cs.
Proof.
  intros H1 Hcs H2. unfold trim. rewrite skip_white_space_prefix by done.
  destruct Hcs as [|c cs Hc Hcs].
  - simpl. rewrite <- (app_nil_r ws2), skip_white_space_app by done. done.
  - rewrite <- app_comm_cons, skip_white_space_solid by done.
    rewrite app_comm_cons, rev_app_distr.
    rewrite skip_white_space_prefix by by apply Forall_rev.
    rewrite <- (app_nil_l (rev (c :: cs))).
    rewrite skip_white_space_app.
    + apply rev_involutive.
    + constructor.
    + apply Forall_rev. by constructor.
Qed.

Lemma forallb_iff (p : ascii -> bool) cs :
  forallb p cs = true <-> Forall (fun c => p c = true) cs.
Proof.
  induction cs as [|c cs IH]; simpl.
  - split; [constructor|done].
  - rewrite andb_true_iff, IH. split.
    + intros [? ?]. by constructor.
    + intros H. by apply Forall_cons in H.
Qed.

Lemma decimal_digits_iff cs : decimal_digits cs = true <-> DecimalDigits cs.
Proof.
  unfold decimal_digits, DecimalDigits.
  rewrite andb_true_iff, forallb_iff.
  destruct cs; simpl; split; intros [H1 H2]; by split.
Qed.

Lemma signed_integer_iff cs :
  decimal_digits (strip_sign cs) = true <-> SignedInteger cs.
Proof.
  split.
  - destruct cs as [|c cs]; simpl.
    + intros H. by apply decimal_digits_iff in H as [? _].
    + destruct (is_sign c) eqn:Hc; intros H; apply decimal_digits_iff in H.
      * by apply SignedInteger_signed.
      * by apply SignedInteger_digits.
  - intros [ds Hds|c ds Hc Hds].
    + destruct Hds as [Hne Hds]. destruct Hds as [|c ds Hc Hds]; [done|].
      simpl. rewrite (digit_not_sign _ Hc).
      apply decimal_digits_iff. split; [done|by constructor].
    + simpl. rewrite Hc. by apply decimal_digits_iff.
Qed.

Lemma exponent_part_opt_iff cs :
  exponent_part_opt cs = true <-> optional ExponentPart cs.
Proof.
  unfold exponent_part_opt, optional. destruct cs as [|c cs].
  - split; [by left|done].
  - rewrite andb_true_iff, signed_integer_iff. split.
    + intros [Hc Hsi]. right. by constructor.
    + intros [?|H]; [done|]. by inversion H.
Qed.

Lemma optional_exponent_no_digit e :
  optional ExponentPart e -> no_digit_ahead e.
Proof.
  intros [->|[c si Hc _]]; simpl; [done|].
  by apply exponent_indicator_not_digit.
Qed.

Lemma exponent_indicator_not_dot c :
  is_exponent_indicator c = true -> Ascii.eqb c "." = false.
Proof. by_cases_on c. Qed.

Lemma optional_digits_Forall fs :
  optional DecimalDigits fs -> Forall (fun c => is_decimal_digit c = true) fs.
Proof. intros [->|[_ H]]; [constructor|done]. Qed.

Lemma nonempty_true {A} (l : list A) : l <> [] -> nonempty l = true.
Proof. by destruct l. Qed.

Lemma nonempty_inv {A} (l : list A) : nonempty l = true -> l <> [].
Proof. by destruct l. Qed.

Lemma unsigned_sound cs :
  str_unsigned_decimal_literal cs = true -> StrUnsignedDecimalLiteral cs.
Proof.
  unfold str_unsigned_decimal_literal.
  destruct (String.eqb_spec (string_of_list_ascii cs) "Infinity") as [E|_].
  { intros _. rewrite <- (list_ascii_of_string_of_list_ascii cs), E.
    constructor. }
  destruct (span_digits_split cs) as [Hcs Hint].
  destruct (span_digits cs) as [int_part rest]. simpl in Hcs, Hint.
  destruct rest as [|c rest'].
  - intros Hne. rewrite Hcs. apply Unsigned_int; [|by left].
    split; [by apply nonempty_inv|done].
  - destruct (Ascii.eqb_spec c ".") as [->|_].
    + destruct (span_digits_split rest') as [Hrest' Hfrac].
      destruct (span_digits rest') as [frac_part rest'']. simpl in *.
      rewrite andb_true_iff, orb_true_iff, exponent_part_opt_iff.
      intros [Hne He]. rewrite Hcs, Hrest'.
      destruct int_part as [|d int_part].
      * destruct Hne as [?|Hne]; [done|]. simpl.
        apply Unsigned_frac; [|done]. split; [by apply nonempty_inv|done].
      * apply Unsigned_int_frac; [done| |done].
        destruct frac_part; [by left|by right].
    + rewrite andb_true_iff, exponent_part_opt_iff. intros [Hne He].
      rewrite Hcs. apply Unsigned_int; [|done].
      split; [by apply nonempty_inv|done].
Qed.

Lemma unsigned_complete cs :
  StrUnsignedDecimalLiteral cs -> str_unsigned_decimal_literal cs = true.
Proof.
  intros H. unfold str_unsigned_decimal_literal.
  destruct H as [|ds fs e [Hne Hds] Hfs He|fs e [Hne Hfs] He|ds e [Hne Hds] He];
    [reflexivity|destruct (String.eqb _ "Infinity"); [done|]..].
  - rewrite span_digits_app by done.
    rewrite Ascii.eqb_refl.
    rewrite span_digits_app
      by eauto using optional_digits_Forall, optional_exponent_no_digit.
    rewrite nonempty_true by done. by apply exponent_part_opt_iff.
  - simpl.
    rewrite span_digits_app by eauto using optional_exponent_no_digit.
    rewrite nonempty_true by done. by apply exponent_part_opt_iff.
  - rewrite span_digits_app by eauto using optional_exponent_no_digit.
    rewrite nonempty_true by done.
    destruct He as [->|He]; [done|].
    destruct He as [c si Hc Hsi].
    rewrite (exponent_indicator_not_dot _ Hc). cbn [andb].
    apply exponent_part_opt_iff. right. by constructor.
Qed.

Lemma unsigned_no_sign cs :
  StrUnsignedDecimalLiteral cs -> strip_sign cs = cs.
Proof.
  intros [|ds fs e [Hne Hds] _ _|fs e _ _|ds e [Hne Hds] _]; try done.
  - destruct Hds as [|d ds Hd _]; [done|]. simpl.
    by rewrite (digit_not_sign _ Hd).
  - destruct Hds as [|d ds Hd _]; [done|]. simpl.
    by rewrite (digit_not_sign _ Hd).
Qed.

Lemma decimal_literal_iff cs :
  str_decimal_literal cs = true <-> StrDecimalLiteral cs.
Proof.
  unfold str_decimal_literal. split.
  - destruct cs as [|c cs]; simpl.
    + intros H. by apply Decimal_unsigned, unsigned_sound.
    + destruct (is_sign c) eqn:Hc; intros H.
      * by apply Decimal_signed, unsigned_sound.
      * by apply Decimal_unsigned, unsigned_sound.
  - intros [cs' H|c cs' Hc H].
    + rewrite unsigned_no_sign by done. by apply unsigned_complete.
    + simpl. rewrite Hc. by apply unsigned_complete.
Qed.

Lemma non_decimal_literal_iff cs :
  non_decimal_integer_literal cs = true <-> NonDecimalIntegerLiteral cs.
Proof.
  split.
  - destruct cs as [|z [|p ds]]; simpl; try done.
    destruct (Ascii.eqb_spec z "0") as [->|]; [|done]. simpl.
    rewrite !orb_true_iff, !andb_true_iff, !forallb_iff.
    intros [[[[Hp Hne] Hds]|[[Hp Hne] Hds]]|[[Hp Hne] Hds]].
    + apply Binary_literal; [done|by apply nonempty_inv|done].
    + apply Octal_literal; [done|by apply nonempty_inv|done].
    + apply Hex_literal; [done|by apply nonempty_inv|done].
  - intros [p ds Hp Hne Hds|p ds Hp Hne Hds|p ds Hp Hne Hds]; simpl;
      apply forallb_iff in Hds; rewrite Hp, Hds, (nonempty_true _ Hne); simpl;
      by rewrite ?orb_true_r.
Qed.

Lemma all_solid (p : ascii -> bool) ds :
  (forall c, p c = true -> solid c) ->
  Forall (fun c => p c = true) ds -> Forall solid ds.
Proof. intros Hp Hds. eapply Forall_impl; [exact Hds|exact Hp]. Qed.

Lemma digits_solid ds :
  Forall (fun c => is_decimal_digit c = true) ds -> Forall solid ds.
Proof. apply all_solid, digit_solid. Qed.

Lemma optional_exponent_solid e : optional ExponentPart e -> Forall solid e.
Proof.
  intros [->|[c si Hc Hsi]]; [constructor|].
  constructor; [by apply exponent_indicator_solid|].
  destruct Hsi as [ds [_ Hds]|s ds Hs [_ Hds]].
  - by apply digits_solid.
  - constructor; [by apply sign_solid|by apply digits_solid].
Qed.

Lemma unsigned_solid cs : StrUnsignedDecimalLiteral cs -> Forall solid cs.
Proof.
  intros [|ds fs e [_ Hds] Hfs He|fs e [_ Hfs] He|ds e [_ Hds] He].
  - repeat constructor.
  - apply Forall_app. split; [by apply digits_solid|].
    constructor; [done|]. apply Forall_app.
    split; [|by apply optional_exponent_solid].
    by apply digits_solid, optional_digits_Forall.
  - constructor; [done|]. apply Forall_app.
    split; [by apply digits_solid|by apply optional_exponent_solid].
  - apply Forall_app.
    split; [by apply digits_solid|by apply optional_exponent_solid].
Qed.

Lemma literal_solid cs :
  StrDecimalLiteral cs \/ NonDecimalIntegerLiteral cs -> Forall solid cs.
Proof.
  intros [[cs' H|c cs' Hc H]|H].
  - by apply unsigned_solid.
  - constructor; [by apply sign_solid|by apply unsigned_solid].
  - destruct H as [p ds Hp _ Hds|p ds Hp _ Hds|p ds Hp _ Hds];
      (constructor; [done|]);
      (constructor;
       [apply radix_prefix_solid; apply orb_true_iff in Hp as [-> | ->];
        simpl; by rewrite ?orb_true_r|]).
    + revert Hds. apply all_solid, binary_digit_solid.
    + revert Hds. apply all_solid, octal_digit_solid.
    + revert Hds. apply all_solid, hex_digit_solid.
Qed.

(** The recognizer accepts exactly the strings of the grammar. *)
Theorem parses_iff_grammar s :
  parses s = true <-> StringNumericLiteral (list_ascii_of_string s).
Proof.
  unfold parses. split.
  - destruct (trim_split (list_ascii_of_string s))
      as (ws1 & ws2 & E & H1 & H2).
    destruct (trim (list_ascii_of_string s)) as [|c cs] eqn:T.
    + intros _. rewrite E. apply Numeric_blank. by apply Forall_app.
    + rewrite orb_true_iff, decimal_literal_iff, non_decimal_literal_iff.
      intros H. rewrite E. by apply Numeric_literal.
  - intros [ws Hws|ws1 cs ws2 H1 Hcs H2].
    + rewrite <- (app_nil_r ws), <- (app_nil_r (ws ++ [])), <- app_assoc.
      rewrite trim_literal; [done..|constructor|constructor].
    + rewrite trim_literal by eauto using literal_solid.
      destruct cs; [done|].
      by rewrite orb_true_iff, decimal_literal_iff, non_decimal_literal_iff.
Qed.

End StringToNumberFacts.

(** [isNaN] of a string, in terms of the grammar. *)
Lemma isNaN_string_iff s :
  js_isNaN (JsString s) = false
  <-> StringToNumber.StringNumericLiteral (list_ascii_of_string s).
Proof.
  simpl. rewrite negb_false_iff. apply StringToNumberFacts.parses_iff_grammar.
Qed.

(** ** The characters of numeric strings *)

Module NumericAlphabet.
Import StringToNumber StringToNumberFacts.

Lemma white_space_in c :
  is_white_space c = true -> numeric_alphabet c = true.
Proof. by_cases_on c. Qed.

Lemma hex_digit_in c : is_hex_digit c = true -> numeric_alphabet c = true.
Proof. by_cases_on c. Qed.

Lemma decimal_digit_in c :
  is_decimal_digit c = true -> numeric_alphabet c = true.
Proof. by_cases_on c. Qed.

Lemma octal_digit_in c : is_octal_digit c = true -> numeric_alphabet c = true.
Proof. by_cases_on c. Qed.

Lemma binary_digit_in c :
  is_binary_digit c = true -> numeric_alphabet c = true.
Proof. by_cases_on c. Qed.

Lemma sign_in c : is_sign c = true -> numeric_alphabet c = true.
Proof. by_cases_on c. Qed.

Lemma exponent_indicator_in c :
  is_exponent_indicator c = true -> numeric_alphabet c = true.
Proof. by_cases_on c. Qed.

Lemma radix_prefix_in c :
  Ascii.eqb c "b" || Ascii.eqb c "B" || Ascii.eqb c "o" || Ascii.eqb c "O"
  || Ascii.eqb c "x" || Ascii.eqb c "X" = true -> numeric_alphabet c = true.
Proof. by_cases_on c. Qed.

Lemma all_in (p : ascii -> bool) cs :
  (forall c, p c = true -> numeric_alphabet c = true) ->
  Forall (fun c => p c = true) cs ->
  Forall (fun c => numeric_alphabet c = true) cs.
Proof. intros Hp Hcs. eapply Forall_impl; [exact Hcs|exact Hp]. Qed.

Lemma optional_exponent_in e :
  optional ExponentPart e -> Forall (fun c => numeric_alphabet c = true) e.
Proof.
  intros [->|[c si Hc Hsi]]; [constructor|].
  constructor; [by apply exponent_indicator_in|].
  destruct Hsi as [ds [_ Hds]|s ds Hs [_ Hds]].
  - by apply (all_in is_decimal_digit), Hds; apply decimal_digit_in.
  - constructor; [by apply sign_in|].
    by apply (all_in is_decimal_digit), Hds; apply decimal_digit_in.
Qed.

Lemma unsigned_in cs :
  StrUnsignedDecimalLiteral cs ->
  Forall (fun c => numeric_alphabet c = true) cs.
Proof.
  pose proof (all_in is_decimal_digit) as Hd.
  intros [|ds fs e [_ Hds] Hfs He|fs e [_ Hfs] He|ds e [_ Hds] He].
  - repeat constructor.
  - apply Forall_app. split; [by apply Hd, Hds; apply decimal_digit_in|].
    constructor; [done|]. apply Forall_app.
    split; [|by apply optional_exponent_in].
    apply Hd; [apply decimal_digit_in|by apply optional_digits_Forall].
  - constructor; [done|]. apply Forall_app.
    split; [|by apply optional_exponent_in].
    by apply Hd, Hfs; apply decimal_digit_in.
  - apply Forall_app. split; [|by apply optional_exponent_in].
    by apply Hd, Hds; apply decimal_digit_in.
Qed.

(** Every character of a string of the grammar is in the alphabet. *)
Lemma grammar_in cs :
  StringNumericLiteral cs -> Forall (fun c => numeric_alphabet c = true) cs.
Proof.
  intros [ws Hws|ws1 lit ws2 H1 Hlit H2].
  - by apply (all_in is_white_space), Hws; apply white_space_in.
  - apply Forall_app.
    split; [by apply (all_in is_white_space), H1; apply white_space_in|].
    apply Forall_app.
    split; [|by apply (all_in is_white_space), H2; apply white_space_in].
    destruct Hlit as [[cs' H|c cs' Hc H]|H].
    + by apply unsigned_in.
    + constructor; [by apply sign_in|by apply unsigned_in].
    + destruct H as [p ds Hp _ Hds|p ds Hp _ Hds|p ds Hp _ Hds];
        (constructor; [done|]);
        (constructor;
         [apply radix_prefix_in; apply orb_true_iff in Hp as [-> | ->];
          simpl; by rewrite ?orb_true_r|]).
      * by apply (all_in is_binary_digit), Hds; apply binary_digit_in.
      * by apply (all_in is_octal_digit), Hds; apply octal_digit_in.
      * by apply (all_in is_hex_digit), Hds; apply hex_digit_in.
Qed.

(** A non-empty string of decimal digits is a string of the grammar. *)
Lemma digits_in_grammar cs :
  cs <> [] -> forallb is_decimal_digit cs = true -> StringNumericLiteral cs.
Proof.
  intros Hne Hds. apply forallb_iff in Hds.
  replace cs with ([] ++ (cs ++ []) ++ [])%list
    by (by rewrite !app_nil_r).
  apply Numeric_literal; [constructor| |constructor].
  left. apply Decimal_unsigned, Unsigned_int; [by split|by left].
Qed.

End NumericAlphabet.

(** ** Array scans *)

Section Scans.
Context {A : Type}.
Implicit Types (f : A -> bool) (g : A -> A) (l : list A).

Lemma find_findIndex f l :
  List.find f l = findIndex f l ≫= fun i => l !! i.
Proof.
  induction l as [|x l IH]; simpl; [done|].
  destruct (f x); [done|].
  rewrite IH. by destruct (findIndex f l).
Qed.

Lemma findIndex_Some f l i :
  findIndex f l = Some i ->
  exists x, l !! i = Some x /\ f x = true
            /\ forall j y, j < i -> l !! j = Some y -> f y = false.
Proof.
  revert i. induction l as [|x l IH]; intros i; simpl; [done|].
  destruct (f x) eqn:Hx.
  - intros [= <-]. exists x. split_and!; [done..|]. intros j y Hj. lia.
  - destruct (findIndex f l) as [k|] eqn:Hk; simpl; [|done].
    intros [= <-]. destruct (IH k eq_refl) as (y & Hy & Hfy & Hlt).
    exists y. split_and!; [done..|].
    intros [|j] z Hj; simpl; [by intros [= <-]|].
    apply Hlt. lia.
Qed.

Lemma findIndex_None f l :
  findIndex f l = None <-> Forall (fun x => f x = false) l.
Proof.
  induction l as [|x l IH]; simpl; [by split; [constructor|]|].
  destruct (f x) eqn:Hx.
  - split; [done|]. intros H. apply Forall_cons in H as [H _]. congruence.
  - destruct (findIndex f l); simpl.
    + split; [done|]. intros H. apply Forall_cons in H as [_ H].
      by apply IH in H.
    + split; [|done]. intros _. constructor; [done|]. by apply IH.
Qed.

Lemma find_None_findIndex f l :
  List.find f l = None <-> findIndex f l = None.
Proof.
  rewrite find_findIndex. split.
  - destruct (findIndex f l) as [i|] eqn:Hi; [|done]. simpl.
    destruct (findIndex_Some _ _ _ Hi) as (x & Hx & _). by rewrite Hx.
  - by intros ->.
Qed.

Lemma find_Some_findIndex f l x :
  List.find f l = Some x ->
  exists i, findIndex f l = Some i /\ l !! i = Some x /\ f x = true.
Proof.
  rewrite find_findIndex.
  destruct (findIndex f l) as [i|] eqn:Hi; [|done]. simpl. intros Hx.
  exists i. split_and!; [done..|].
  destruct (findIndex_Some _ _ _ Hi) as (y & Hy & Hfy & _). congruence.
Qed.

Lemma mutate_found_insert f g l i x :
  findIndex f l = Some i -> l !! i = Some x ->
  mutate_found f g l = <[i := g x]> l.
Proof.
  revert i. induction l as [|y l IH]; intros i; simpl; [done|].
  destruct (f y).
  - intros [= <-]. simpl. by intros [= ->].
  - destruct (findIndex f l) as [k|]; simpl; [|done].
    intros [= <-]. simpl. intros Hx. f_equal. by apply IH.
Qed.

Lemma mutate_found_absent f g l :
  findIndex f l = None -> mutate_found f g l = l.
Proof.
  induction l as [|y l IH]; simpl; [done|].
  destruct (f y); [done|].
  destruct (findIndex f l); simpl; [done|]. intros _. f_equal. by apply IH.
Qed.

Lemma mutate_found_length f g l : length (mutate_found f g l) = length l.
Proof.
  induction l as [|y l IH]; simpl; [done|]. destruct (f y); simpl; congruence.
Qed.

(** A field that [g] does not change keeps its value in every element. *)
Lemma mutate_found_map {B} (h : A -> B) f g l :
  (forall x, h (g x) = h x) -> map h (mutate_found f g l) = map h l.
Proof.
  intros Hh. induction l as [|y l IH]; simpl; [done|].
  destruct (f y); simpl; [by rewrite Hh|by rewrite IH].
Qed.

Lemma find_app_None f l1 l2 :
  List.find f l1 = None -> List.find f (l1 ++ l2) = List.find f l2.
Proof.
  induction l1 as [|y l IH]; simpl; [done|]. destruct (f y); [done|apply IH].
Qed.

Lemma find_app_Some f l1 l2 x :
  List.find f l1 = Some x -> List.find f (l1 ++ l2) = Some x.
Proof.
  induction l1 as [|y l IH]; simpl; [done|]. destruct (f y); [done|apply IH].
Qed.

Lemma filter_nil_absent f l :
  List.filter f l = [] -> findIndex f l = None.
Proof.
  induction l as [|y l IH]; simpl; [done|].
  destruct (f y); [done|]. intros H. by rewrite IH.
Qed.

(** Once the only element that satisfies [f] is removed, none is left. *)
Lemma find_delete_unique f l i :
  findIndex f l = Some i -> length (List.filter f l) = 1 ->
  List.find f (delete i l) = None.
Proof.
  revert i. induction l as [|y l IH]; intros i; simpl; [done|].
  destruct (f y) eqn:Hy.
  - intros [= <-] [= Hlen]. simpl.
    apply length_zero_iff_nil in Hlen.
    by apply find_None_findIndex, filter_nil_absent.
  - destruct (findIndex f l) as [k|]; simpl; [|done].
    intros [= <-] Hlen. simpl. rewrite Hy. by apply IH.
Qed.

Lemma filter_one_found f l :
  length (List.filter f l) = 1 -> exists i, findIndex f l = Some i.
Proof.
  intros Hlen. destruct (findIndex f l) as [i|] eqn:Hi; [by exists i|].
  apply findIndex_None in Hi.
  assert (List.filter f l = []) as E; [|by rewrite E in Hlen].
  clear Hlen. induction Hi as [|y l Hy _ IH]; simpl; [done|]. by rewrite Hy.
Qed.

(** When [g] keeps an element a match, the first match of the changed
    array is the changed element. *)
Lemma find_mutate_found f g l :
  (forall x, f x = true -> f (g x) = true) ->
  List.find f (mutate_found f g l) = g <$> List.find f l.
Proof.
  intros Hg. induction l as [|y l IH]; simpl; [done|].
  destruct (f y) eqn:Hy; simpl.
  - by rewrite (Hg _ Hy).
  - by rewrite Hy.
Qed.

Lemma mutate_found_Forall (P : A -> Prop) f g l :
  (forall x, P x -> P (g x)) -> Forall P l -> Forall P (mutate_found f g l).
Proof.
  intros Hg Hl. induction Hl as [|y l Hy Hl IH]; simpl; [constructor|].
  destruct (f y); constructor; auto.
Qed.

(** Every element of the changed array is the old element at its index,
    as it was or changed by [g]. *)
Lemma mutate_found_lookup f g l k x :
  l !! k = Some x ->
  exists y, mutate_found f g l !! k = Some y /\ (y = x \/ y = g x).
Proof.
  revert k. induction l as [|z l IH]; intros k; simpl; [done|].
  destruct (f z), k as [|k]; simpl.
  - intros [= ->]. eauto.
  - intros H. eauto.
  - intros [= ->]. eauto.
  - apply IH.
Qed.

(** The first match splits the array: nothing before it matches, and
    removing it joins what is before and behind it. *)
Lemma findIndex_split f l i :
  findIndex f l = Some i ->
  exists l1 x l2,
    l = (l1 ++ x :: l2)%list /\ length l1 = i /\ f x = true
    /\ List.filter f l1 = [] /\ delete i l = (l1 ++ l2)%list.
Proof.
  revert i. induction l as [|y l IH]; intros i; simpl; [done|].
  destruct (f y) eqn:Hy.
  - intros [= <-]. by exists [], y, l.
  - destruct (findIndex f l) as [k|]; simpl; [|done]. intros [= <-].
    destruct (IH k eq_refl) as (l1 & x & l2 & -> & <- & Hx & Hl1 & Hdel).
    exists (y :: l1), x, l2. simpl. rewrite Hy, Hdel. done.
Qed.

Lemma mutate_found_idem f g l :
  (forall x, f x = true -> f (g x) = true) ->
  (forall x, g (g x) = g x) ->
  mutate_found f g (mutate_found f g l) = mutate_found f g l.
Proof.
  intros Hf Hg. induction l as [|y l IH]; simpl; [done|].
  destruct (f y) eqn:Hy; simpl.
  - by rewrite (Hf _ Hy), Hg.
  - by rewrite Hy, IH.
Qed.

Lemma mutate_found_fixed f g l :
  (forall x, List.find f l = Some x -> g x = x) -> mutate_found f g l = l.
Proof.
  induction l as [|y l IH]; simpl; [done|].
  destruct (f y); intros Hg.
  - by rewrite Hg.
  - by rewrite IH.
Qed.

Lemma mutate_found_app_found f g l1 l2 x :
  List.find f l1 = Some x ->
  mutate_found f g (l1 ++ l2) = (mutate_found f g l1 ++ l2)%list.
Proof.
  induction l1 as [|y l IH]; simpl; [done|].
  destruct (f y); [done|]. intros H. by rewrite IH.
Qed.

Lemma findIndex_app_found f l1 l2 i :
  findIndex f l1 = Some i -> findIndex f (l1 ++ l2)%list = Some i.
Proof.
  revert i. induction l1 as [|y l IH]; intros i; simpl; [done|].
  destruct (f y); [done|].
  destruct (findIndex f l) as [k|]; simpl; [|done].
  intros [= <-]. by rewrite (IH k).
Qed.

Lemma findIndex_app_absent f l x :
  findIndex f l = None -> f x = true ->
  findIndex f (l ++ [x])%list = Some (length l).
Proof.
  intros Hl Hx. induction l as [|y l IH]; simpl in *; [by rewrite Hx|].
  destruct (f y); [done|].
  destruct (findIndex f l); [done|]. by rewrite IH.
Qed.

Lemma delete_snoc (l : list A) x : delete (length l) (l ++ [x])%list = l.
Proof. induction l as [|y l IH]; simpl; [done|]. by rewrite IH. Qed.

Lemma delete_app_lt (l1 l2 : list A) i :
  i < length l1 -> delete i (l1 ++ l2)%list = (delete i l1 ++ l2)%list.
Proof.
  revert i. induction l1 as [|y l IH]; intros i; simpl; [lia|].
  destruct i as [|i]; [done|]. intros Hi. simpl. rewrite IH; [done|lia].
Qed.

End Scans.

(** ** The handlers, case by case *)

Section HandlerFacts.
Variable env : Env.

Lemma store_part_posts w part :
  posts (snd (store_part env w part)) = posts w.
Proof. by destruct part. Qed.

(** Storing the file parts leaves the array [posts] alone. *)
Lemma upload_fields_posts w parts :
  posts (snd (upload_fields env w parts)) = posts w.
Proof.
  unfold upload_fields.
  destruct (store_part _ w _) as [i w1] eqn:H1.
  destruct (store_part _ w1 _) as [v w2] eqn:H2. simpl.
  pose proof (store_part_posts w (image_part parts)) as E1.
  pose proof (store_part_posts w1 (video_part parts)) as E2.
  rewrite H1 in E1. rewrite H2 in E2. simpl in *. congruence.
Qed.



Lemma create_post_rejected w b files :
  truthy (field b "id") && js_isNaN (field b "id") = true ->
  create_post env w b files
  = ({| status := 400; body := message "ID must be a valid number" |}, w).
Proof. intros H. unfold create_post. by rewrite H. Qed.

Lemma create_post_accepted w b files :
  truthy (field b "id") && js_isNaN (field b "id") = false ->
  create_post env w b files
  = ({| status := 201; body := created_body (new_post env w b files) |},
     {| posts := posts w ++ [new_post env w b files];
        disk := disk w;
        draws := if truthy (field b "id") then draws w else S (draws w) |}).
Proof.
  intros H. unfold create_post. rewrite H.
  unfold new_post, created_body. by destruct (truthy (field b "id")).
Qed.

Lemma post_posts_rejected w b parts :
  truthy (field b "id") && js_isNaN (field b "id") = true ->
  post_posts env w b parts
  = ({| status := 400; body := message "ID must be a valid number" |},
     snd (upload_fields env w parts)).
Proof.
  intros H. unfold post_posts.
  destruct (upload_fields env w parts) as [files w1]. simpl.
  by apply create_post_rejected.
Qed.

Lemma post_posts_accepted w b parts :
  truthy (field b "id") && js_isNaN (field b "id") = false ->
  let files := fst (upload_fields env w parts) in
  let w1 := snd (upload_fields env w parts) in
  post_posts env w b parts
  = ({| status := 201; body := created_body (new_post env w1 b files) |},
     {| posts := posts w ++ [new_post env w1 b files];
        disk := disk w1;
        draws := if truthy (field b "id") then draws w1 else S (draws w1) |}).
Proof.
  intros H. simpl. unfold post_posts.
  pose proof (upload_fields_posts w parts) as Hp.
  destruct (upload_fields env w parts) as [files w1]. simpl in *.
  rewrite <- Hp. by apply create_post_accepted.
Qed.

(** A string that coerces to NaN is not empty, so it is truthy. *)
Lemma isNaN_string_truthy s :
  js_isNaN (JsString s) = true -> truthy (JsString s) = true.
Proof.
  intros H. simpl. destruct (String.eqb_spec s "") as [->|]; [|done].
  vm_compute in H. discriminate.
Qed.

Lemma truthy_string s : truthy (JsString s) = true <-> s <> "".
Proof.
  simpl. destruct (String.eqb_spec s ""); split; try done.
Qed.

Lemma get_post_found w rid post :
  List.find (has_id rid) (posts w) = Some post ->
  get_post w rid = ({| status := 200; body := post_json post |}, w).
Proof. intros H. unfold get_post. by rewrite H. Qed.

Lemma get_post_absent w rid :
  List.find (has_id rid) (posts w) = None ->
  get_post w rid = ({| status := 404; body := message "Post not found" |}, w).
Proof. intros H. unfold get_post. by rewrite H. Qed.

Lemma has_id_true rid p : has_id rid p = true <-> id p = JsString rid.
Proof.
  unfold has_id, strict_eq_string. destruct (id p) as [| |t]; try by split.
  destruct (String.eqb_spec t rid); split; congruence.
Qed.

(** C5: a creation request whose id does not coerce to a number (one for
    which [isNaN] holds, such as ["abc"]) is answered 400 with the message
    "ID must be a valid number"; the array of posts is what it was, so the
    listing and the number of posts are unchanged. *)
Theorem invalid_id_rejected w b parts s :
  field b "id" = JsString s ->
  js_isNaN (JsString s) = true ->
  let '(r, w') := post_posts env w b parts in
  r = {| status := 400; body := message "ID must be a valid number" |}
  /\ posts w' = posts w
  /\ length (posts w') = length (posts w)
  /\ fst (get_posts w') = fst (get_posts w).
Proof.
  intros Hid Hnan.
  rewrite post_posts_rejected.
  - rewrite upload_fields_posts. unfold get_posts. simpl.
    rewrite upload_fields_posts. done.
  - rewrite Hid, Hnan, (isNaN_string_truthy _ Hnan). done.
Qed.

(** C10: the validator accepts every id string whose numeric coercion is
    not NaN, among them ["1e5"], ["12.5"], [" 42 "] and ["Infinity"], none
    of which is a string of digits; the request is answered 201 and the
    new record carries the string itself as its id, except that the empty
    string is replaced by the next token of the generator. *)
Theorem coercible_id_stored_verbatim w b parts s :
  field b "id" = JsString s ->
  js_isNaN (JsString s) = false ->
  Forall (fun e => js_isNaN (JsString e) = false /\ e <> ""
                   /\ forallb StringToNumber.is_decimal_digit
                        (list_ascii_of_string e) = false)
         ["1e5"; "12.5"; " 42 "; "Infinity"]
  /\ let '(r, w') := post_posts env w b parts in
     exists p,
       r = {| status := 201; body := created_body p |}
       /\ posts w' = (posts w ++ [p])%list
       /\ (s <> "" -> id p = JsString s)
       /\ (s = "" ->
           id p
           = JsString
               (uuidv4 env (draws (snd (upload_fields env w parts))))).
Proof.
  intros Hid Hnum. split.
  - repeat constructor; done.
  - rewrite post_posts_accepted
      by (rewrite Hid, Hnum; apply andb_false_r).
    eexists. split_and!; [done..| |]; simpl; rewrite Hid.
    + intros Hs. apply truthy_string in Hs. by rewrite Hs.
    + by intros ->.
Qed.

(** C2, amended: a creation request with id ["42"] is answered 201 with
    the full record, which is appended to the array with the id ["42"] and
    the supplied title, description and actress.  When no earlier record
    has the id ["42"], a following [GET /posts/42] answers 200 with that
    record; when one has, it answers with the first such record.  Ids are
    compared as strings: a different string that no record has as its id
    is answered 404, whatever number it denotes. *)
Theorem created_42_read_back w b parts :
  field b "id" = JsString "42" ->
  let '(r1, w1) := post_posts env w b parts in
  exists p,
    r1 = {| status := 201; body := created_body p |}
    /\ posts w1 = (posts w ++ [p])%list
    /\ id p = JsString "42"
    /\ title p = field b "title"
    /\ description p = field b "description"
    /\ actress p = field b "actress"
    /\ (List.find (has_id "42") (posts w) = None ->
        reads_back_created env w b parts
        /\ get_post w1 "42"
           = ({| status := 200; body := post_json p |}, w1))
    /\ (forall q, List.find (has_id "42") (posts w) = Some q ->
          get_post w1 "42" = ({| status := 200; body := post_json q |}, w1))
    /\ forall rid, rid <> "42" ->
         List.find (has_id rid) (posts w) = None ->
         fst (get_post w1 rid)
         = {| status := 404; body := message "Post not found" |}.
Proof.
  intros Hid. unfold reads_back_created.
  rewrite post_posts_accepted by (by rewrite Hid).
  set (p := new_post _ _ _ _). set (w1 := mkWorld _ _ _).
  assert (id p = JsString "42") as Hp by (subst p; simpl; by rewrite Hid).
  exists p. split_and!; [done..| | |].
  - intros Hfresh.
    assert (List.find (has_id "42") (posts w1) = Some p) as Hfind.
    { subst w1. simpl. rewrite find_app_None by done. simpl.
      unfold has_id. by rewrite Hp. }
    by rewrite (get_post_found _ _ _ Hfind).
  - intros q Hq. apply get_post_found. subst w1. simpl.
    by apply find_app_Some.
  - intros rid Hne Habs. rewrite get_post_absent; [done|].
    subst w1. simpl. rewrite find_app_None by done. simpl.
    destruct (has_id rid p) eqn:E; [|done].
    apply has_id_true in E. congruence.
Qed.

Lemma put_post_found w rid b post :
  List.find (has_id rid) (posts w) = Some post ->
  put_post w rid b
  = ({| status := 200; body := updated_body (assign_fields b post) |},
     {| posts := mutate_found (has_id rid) (assign_fields b) (posts w);
        disk := disk w; draws := draws w |}).
Proof. intros H. unfold put_post. by rewrite H. Qed.

Lemma put_post_absent w rid b :
  List.find (has_id rid) (posts w) = None ->
  put_post w rid b
  = ({| status := 404; body := message "Post not found" |}, w).
Proof. intros H. unfold put_post. by rewrite H. Qed.

Lemma delete_post_found w rid i :
  findIndex (has_id rid) (posts w) = Some i ->
  delete_post w rid
  = ({| status := 200; body := message "Post deleted successfully" |},
     {| posts := delete i (posts w); disk := disk w; draws := draws w |}).
Proof. intros H. unfold delete_post. by rewrite H. Qed.

Lemma delete_post_absent w rid :
  findIndex (has_id rid) (posts w) = None ->
  delete_post w rid
  = ({| status := 404; body := message "Post not found" |}, w).
Proof. intros H. unfold delete_post. by rewrite H. Qed.

Lemma coalesced_js_or old supplied :
  coalesced old (js_or supplied old) supplied.
Proof. unfold coalesced, js_or. by destruct (truthy supplied). Qed.

(** C3, amended: when exactly one record has the id (ids are not unique,
    and a delete removes the first match only), [DELETE /posts/rid] is
    answered 200, and after it [GET /posts/rid] and a second
    [DELETE /posts/rid] are answered 404 "Post not found".  Reading,
    updating or deleting an id that no record has is answered 404
    "Post not found" and changes nothing. *)
Theorem delete_then_not_found w rid :
  (length (List.filter (has_id rid) (posts w)) = 1 ->
   status (fst (delete_post w rid)) = 200 /\ gone_after_delete w rid)
  /\ (List.find (has_id rid) (posts w) = None ->
      forall b,
        get_post w rid
        = ({| status := 404; body := message "Post not found" |}, w)
        /\ put_post w rid b
           = ({| status := 404; body := message "Post not found" |}, w)
        /\ delete_post w rid
           = ({| status := 404; body := message "Post not found" |}, w)).
Proof.
  split.
  - intros Hone. destruct (filter_one_found _ _ Hone) as [i Hi].
    unfold gone_after_delete. rewrite (delete_post_found _ _ _ Hi). simpl.
    split; [done|]. intros _.
    pose proof (find_delete_unique _ _ _ Hi Hone) as Hgone.
    rewrite get_post_absent by done.
    rewrite delete_post_absent by (by apply find_None_findIndex).
    done.
  - intros Habs b. split_and!.
    + by apply get_post_absent.
    + by apply put_post_absent.
    + by apply delete_post_absent, find_None_findIndex.
Qed.

(** C4: when [PUT /posts/rid] finds a post, the answer is 200 with the
    updated record, which is then the record found under that id; its
    title, description and actress are the supplied values where these
    are truthy and the stored values otherwise, so that an absent field
    and an empty string both leave the stored value as it was. *)
Theorem put_coalesces_on_truthy w rid b post :
  List.find (has_id rid) (posts w) = Some post ->
  let '(r, w') := put_post w rid b in
  exists post',
    r = {| status := 200; body := updated_body post' |}
    /\ List.find (has_id rid) (posts w') = Some post'
    /\ coalesced (title post) (title post') (field b "title")
    /\ coalesced (description post) (description post')
         (field b "description")
    /\ coalesced (actress post) (actress post') (field b "actress")
    /\ forall key, b !! key = None \/ b !! key = Some (JsString "") ->
         truthy (field b key) = false.
Proof.
  intros Hfind. rewrite (put_post_found _ _ b _ Hfind).
  exists (assign_fields b post). split_and!.
  - done.
  - simpl. rewrite find_mutate_found; [by rewrite Hfind|].
    intros x. by unfold has_id.
  - apply coalesced_js_or.
  - apply coalesced_js_or.
  - apply coalesced_js_or.
  - intros key [H|H]; unfold field; by rewrite H.
Qed.

(** C6: [PUT /posts/rid] leaves the id, the image and the video of every
    record as they were, whatever the body holds, and changes no record
    other than the one it found. *)
Theorem put_touches_nothing_else w rid b :
  let w' := snd (put_post w rid b) in
  map id (posts w') = map id (posts w)
  /\ map image (posts w') = map image (posts w)
  /\ map video (posts w') = map video (posts w)
  /\ length (posts w') = length (posts w)
  /\ forall i, findIndex (has_id rid) (posts w) <> Some i ->
       posts w' !! i = posts w !! i.
Proof.
  simpl. destruct (List.find (has_id rid) (posts w)) as [post|] eqn:Hfind.
  - rewrite (put_post_found _ _ b _ Hfind). simpl.
    split_and!; try (by apply mutate_found_map).
    + apply mutate_found_length.
    + intros i Hi.
      destruct (find_Some_findIndex _ _ _ Hfind) as (k & Hk & Hpost & _).
      rewrite (mutate_found_insert _ _ _ _ _ Hk Hpost).
      apply list_lookup_insert_ne. congruence.
  - by rewrite (put_post_absent _ _ _ Hfind).
Qed.

Lemma post_posts_201 w b parts :
  status (fst (post_posts env w b parts)) = 201 ->
  truthy (field b "id") && js_isNaN (field b "id") = false.
Proof.
  destruct (truthy (field b "id") && js_isNaN (field b "id")) eqn:E; [|done].
  by rewrite (post_posts_rejected _ _ _ E).
Qed.

Lemma truthy_nonempty_string v :
  truthy v = true -> exists s, v = JsString s /\ s <> "".
Proof.
  destruct v as [| |s]; try done. intros H. exists s. split; [done|].
  by apply truthy_string.
Qed.

Lemma serve_cons w r rs :
  snd (serve env w (r :: rs))
  = snd (serve env
           (snd (handle env w r)) rs).
Proof.
  simpl. destruct (handle _ w r) as [resp w1]. simpl.
  by destruct (serve _ w1 rs).
Qed.

(** What a request does to the array [posts]. *)
Lemma handle_posts w r :
  let w' := snd (handle env w r) in
  match r with
  | POST_posts b parts =>
      posts w' = posts w
      \/ truthy (field b "id") && js_isNaN (field b "id") = false
         /\ posts w'
            = (posts w
               ++ [new_post env (snd (upload_fields env w parts)) b
                     (fst (upload_fields env w parts))])%list
  | GET_posts | GET_post _ => posts w' = posts w
  | PUT_post rid b =>
      posts w' = mutate_found (has_id rid) (assign_fields b) (posts w)
  | DELETE_post rid =>
      match findIndex (has_id rid) (posts w) with
      | Some i => posts w' = delete i (posts w)
      | None => posts w' = posts w
      end
  end.
Proof.
  destruct r as [b parts| |rid|rid b|rid]; simpl.
  - destruct (truthy (field b "id") && js_isNaN (field b "id")) eqn:E.
    + left. rewrite (post_posts_rejected _ _ _ E). simpl.
      apply upload_fields_posts.
    + right. split; [done|]. by rewrite (post_posts_accepted _ _ _ E).
  - done.
  - unfold get_post. by destruct (List.find _ _).
  - destruct (List.find (has_id rid) (posts w)) as [post|] eqn:Hfind.
    + by rewrite (put_post_found _ _ b _ Hfind).
    + rewrite (put_post_absent _ _ b Hfind).
      symmetry. by apply mutate_found_absent, find_None_findIndex.
  - unfold delete_post. by destruct (findIndex _ _).
Qed.

Lemma new_post_nonempty_id w b files :
  (forall n, uuidv4 env n <> "") -> nonempty_id (new_post env w b files).
Proof.
  intros Huuid. unfold nonempty_id. simpl.
  destruct (truthy (field b "id")) eqn:E.
  - by apply truthy_nonempty_string.
  - eauto.
Qed.

Lemma handle_ids_nonempty w r :
  (forall n, uuidv4 env n <> "") ->
  ids_nonempty w -> ids_nonempty (snd (handle env w r)).
Proof.
  intros Huuid Hw. unfold ids_nonempty in *.
  pose proof (handle_posts w r) as H. simpl in H.
  destruct r as [b parts| |rid|rid b|rid].
  - destruct H as [->|[_ ->]]; [done|].
    apply Forall_app. split; [done|].
    constructor; [|constructor]. by apply new_post_nonempty_id.
  - by rewrite H.
  - by rewrite H.
  - rewrite H. by apply mutate_found_Forall.
  - destruct (findIndex (has_id rid) (posts w)); rewrite H; [|done].
    by apply Forall_delete.
Qed.

Lemma serve_ids_nonempty rs w :
  (forall n, uuidv4 env n <> "") ->
  ids_nonempty w -> ids_nonempty (snd (serve env w rs)).
Proof.
  intros Huuid. revert w. induction rs as [|r rs IH]; intros w Hw; [done|].
  rewrite serve_cons. by apply IH, handle_ids_nonempty.
Qed.

(** C7: as long as the token generator yields non-empty tokens, every
    record has a non-empty id: the empty array has, every request keeps
    it so, and so does every sequence of requests since the start.  A
    creation whose supplied id is a non-empty value that fails the
    validation is answered 400 and stores nothing; one whose supplied id
    is a non-empty value that passes the validation is answered 201 and
    stores one record with that id; every other creation (the id omitted
    or empty) is answered 201 and stores one record whose id is the next
    token of the generator, which is then used up. *)
Theorem ids_stay_nonempty :
  (forall n, uuidv4 env n <> "") ->
  ids_nonempty initial_world
  /\ (forall w r, ids_nonempty w ->
                  ids_nonempty (snd (handle env w r)))
  /\ (forall rs,
        ids_nonempty (snd (serve env initial_world rs)))
  /\ forall w b parts,
       let w1 := snd (upload_fields env w parts) in
       let '(r, w') := post_posts env w b parts in
       (truthy (field b "id") = true -> js_isNaN (field b "id") = true ->
        status r = 400 /\ posts w' = posts w)
       /\ (truthy (field b "id") = true -> js_isNaN (field b "id") = false ->
           status r = 201
           /\ exists p, posts w' = (posts w ++ [p])%list /\ nonempty_id p
                        /\ id p = field b "id")
       /\ (truthy (field b "id") = false ->
           status r = 201
           /\ exists p, posts w' = (posts w ++ [p])%list /\ nonempty_id p
                        /\ id p = JsString (uuidv4 env (draws w1))
                        /\ draws w' = S (draws w1)).
Proof.
  intros Huuid. split_and!.
  - constructor.
  - intros w r. by apply handle_ids_nonempty.
  - intros rs. apply serve_ids_nonempty; [done|constructor].
  - intros w b parts. simpl.
    destruct (truthy (field b "id") && js_isNaN (field b "id")) eqn:E.
    + rewrite (post_posts_rejected _ _ _ E).
      apply andb_true_iff in E as [Ht Hn]. split_and!.
      * intros _ _. split; [done|]. apply upload_fields_posts.
      * intros _ Hn'. congruence.
      * intros Ht'. congruence.
    + rewrite (post_posts_accepted _ _ _ E). split_and!.
      * intros Ht Hn. rewrite Ht, Hn in E. done.
      * intros Ht _. split; [done|]. eexists.
        split_and!; [done|by apply new_post_nonempty_id|].
        simpl. by rewrite Ht.
      * intros Ht. split; [done|]. eexists.
        split_and!; [done|by apply new_post_nonempty_id| |];
          simpl; by rewrite Ht.
Qed.




(** C8: [GET /posts] answers 200 with all the records of the array, each
    in full, in the order of the array; three posts created one after the
    other are listed behind the earlier ones in the order of their
    creation; a delete leaves the remaining records in the order they
    had. *)
Theorem listing_in_insertion_order w bA partsA bB partsB bC partsC :
  let reqs :=
    [POST_posts bA partsA; POST_posts bB partsB; POST_posts bC partsC] in
  Forall (fun r => status r = 201)
         (fst (serve env w reqs)) ->
  (exists a b c,
      posts (snd (serve env w reqs))
      = (posts w ++ [a; b; c])%list
      /\ title a = field bA "title" /\ title b = field bB "title"
      /\ title c = field bC "title"
      /\ fst (serve env w (reqs ++ [GET_posts]))
         = [ {| status := 201; body := created_body a |};
             {| status := 201; body := created_body b |};
             {| status := 201; body := created_body c |};
             {| status := 200;
                body := JArr (map post_json (posts w ++ [a; b; c])) |} ])
  /\ (forall w0,
        get_posts w0
        = ({| status := 200; body := JArr (map post_json (posts w0)) |}, w0))
  /\ (forall w0 rid,
        posts (snd (delete_post w0 rid)) `sublist_of` posts w0
        /\ forall i, findIndex (has_id rid) (posts w0) = Some i ->
             posts (snd (delete_post w0 rid))
             = (take i (posts w0) ++ drop (S i) (posts w0))%list).
Proof.
  cbn [serve handle app]. intros Hall. split_and!.
  - destruct (post_posts env w bA partsA) as [rA wA] eqn:EA.
    destruct (post_posts env wA bB partsB) as [rB wB] eqn:EB.
    destruct (post_posts env wB bC partsC) as [rC wC] eqn:EC.
    cbn [fst snd get_posts] in *.
    apply Forall_cons in Hall as [HA Hall].
    apply Forall_cons in Hall as [HB Hall].
    apply Forall_cons in Hall as [HC _].
    assert (status (fst (post_posts env w bA partsA)) = 201) as GA
      by by rewrite EA.
    assert (status (fst (post_posts env wA bB partsB)) = 201) as GB
      by by rewrite EB.
    assert (status (fst (post_posts env wB bC partsC)) = 201) as GC
      by by rewrite EC.
    rewrite (post_posts_accepted _ _ _ (post_posts_201 _ _ _ GA)) in EA.
    rewrite (post_posts_accepted _ _ _ (post_posts_201 _ _ _ GB)) in EB.
    rewrite (post_posts_accepted _ _ _ (post_posts_201 _ _ _ GC)) in EC.
    injection EA as <- <-. injection EB as <- <-. injection EC as <- <-.
    cbn [posts]. rewrite <- !app_assoc. cbn [app].
    do 3 eexists. split_and!; done.
  - done.
  - intros w0 rid. unfold delete_post.
    destruct (findIndex (has_id rid) (posts w0)) as [i|]; simpl.
    + split; [apply sublist_delete|].
      intros ? [= <-]. apply delete_take_drop.
    + split; done.
Qed.


Lemma string_media_member m p s :
  media_field m p = JsString s ->
  json_get (media_key m) (post_json p) = Some (JStr s).
Proof.
  destruct p as [i t d im v a], m; simpl; intros ->.
  - by destruct i, t, d.
  - by destruct i, t, d, im.
Qed.

(** Where the file of an image part is written, and what the record says:
    the directory of the file follows the content type, the directory in
    the reference is always [images]. *)
Lemma image_part_stored w b file :
  status (fst (post_posts env w b (mkParts (Some file) None))) = 201 ->
  let name := filename env (draws w) file in
  let '(r, w') := post_posts env w b (mkParts (Some file) None) in
  json_get "post" (body r) ≫= json_get "image"
  = Some (JStr ("/uploads/images/" ++ name))
  /\ disk w' = <[destination file ++ "/" ++ name := buffer file]> (disk w).
Proof.
  intros Hok. rewrite (post_posts_accepted _ _ _ (post_posts_201 _ _ _ Hok)).
  unfold upload_fields, store_part, store_file.
  cbn [image_part video_part fst snd disk draws].
  split; [|done].
  by apply (string_media_member Image).
Qed.

(** With a content type that does not begin with [video], the reference
    of an image part names the file that holds the uploaded bytes. *)
Lemma image_reference_resolves w b file :
  status (fst (post_posts env w b (mkParts (Some file) None))) = 201 ->
  String.prefix "video" (mimetype file) = false ->
  let name := filename env (draws w) file in
  serve_static (snd (post_posts env w b (mkParts (Some file) None)))
    ("/uploads/images/" ++ name)
  = Some (buffer file).
Proof.
  intros Hok Hmime. pose proof (image_part_stored w b file Hok) as H.
  cbv zeta in H. destruct (post_posts env w b _) as [r w'].
  destruct H as [_ H]. cbv zeta. unfold serve_static. cbn [snd].
  rewrite H. unfold destination. rewrite Hmime.
  simpl. apply lookup_insert_eq.
Qed.

(** *** Uploads *)

Lemma destination_classified file :
  destination file = "uploads/" ++ media_dir (classified file).
Proof.
  unfold destination, classified.
  by destruct (String.prefix "video" (mimetype file)).
Qed.

Lemma post_posts_disk w b parts :
  disk (snd (post_posts env w b parts))
  = disk (snd (upload_fields env w parts)).
Proof.
  destruct (truthy (field b "id") && js_isNaN (field b "id")) eqn:E.
  - by rewrite (post_posts_rejected _ _ _ E).
  - by rewrite (post_posts_accepted _ _ _ E).
Qed.

Lemma upload_fields_only m w file :
  upload_fields env w (only m file)
  = (match m with
     | Image => mkReqFiles (Some (fst (store_file env w file))) None
     | Video => mkReqFiles None (Some (fst (store_file env w file)))
     end,
     {| posts := posts w;
        disk := <[stored_path env (draws w) file := buffer file]> (disk w);
        draws := S (draws w) |}).
Proof. by destruct m. Qed.

Lemma upload_fields_both w i v :
  upload_fields env w (mkParts (Some i) (Some v))
  = (mkReqFiles
       (Some (fst (store_file env w i)))
       (Some (fst (store_file env (snd (store_file env w i)) v))),
     {| posts := posts w;
        disk := <[stored_path env (S (draws w)) v := buffer v]>
                  (<[stored_path env (draws w) i := buffer i]> (disk w));
        draws := S (S (draws w)) |}).
Proof. done. Qed.

Lemma static_file_reference m name :
  static_file (reference m name)
  = Some ("uploads/" ++ media_dir m ++ "/" ++ name).
Proof. by destruct m. Qed.

Lemma media_dir_inj m1 m2 x y :
  "uploads/" ++ media_dir m1 ++ "/" ++ x
  = "uploads/" ++ media_dir m2 ++ "/" ++ y ->
  m1 = m2.
Proof. destruct m1, m2; simpl; intros H; by try discriminate H. Qed.

Lemma new_post_media m w b file :
  media_field m
    (new_post env (snd (upload_fields env w (only m file))) b
       (fst (upload_fields env w (only m file))))
  = JsString (reference m (filename env (draws w) file)).
Proof. by destruct m. Qed.

(** X1: a creation request with one file part that is answered 201 names
    the file in the record by the directory of the part's name, and
    stores the bytes under the directory of the content type.  When the
    two agree, the path that the reference spells (the reference without
    its leading slash) holds the uploaded bytes; when they differ, the
    request has written nothing at that path: what the disk holds there
    is what it held before. *)
Theorem reference_follows_part_name m w b file :
  status (fst (post_posts env w b (only m file))) = 201 ->
  let name := filename env (draws w) file in
  let spelled := "uploads/" ++ media_dir m ++ "/" ++ name in
  let '(r, w') := post_posts env w b (only m file) in
  json_get "post" (body r) ≫= json_get (media_key m)
  = Some (JStr (reference m name))
  /\ reference m name = "/" ++ spelled
  /\ disk w'
     = <["uploads/" ++ media_dir (classified file) ++ "/" ++ name
         := buffer file]> (disk w)
  /\ (classified file = m -> disk w' !! spelled = Some (buffer file))
  /\ (classified file <> m -> disk w' !! spelled = disk w !! spelled).
Proof.
  intros Hok. rewrite (post_posts_accepted _ _ _ (post_posts_201 _ _ _ Hok)).
  cbv zeta. split_and!.
  - exact (string_media_member m _ _ (new_post_media m w b file)).
  - by destruct m.
  - rewrite upload_fields_only. cbn [snd disk].
    unfold stored_path. by rewrite destination_classified.
  - intros Hm. rewrite upload_fields_only. cbn [snd disk].
    unfold stored_path. rewrite destination_classified, Hm.
    apply lookup_insert_eq.
  - intros Hm. rewrite upload_fields_only. cbn [snd disk].
    unfold stored_path. rewrite destination_classified.
    apply lookup_insert_ne. intros H. apply Hm.
    exact (media_dir_inj _ _ _ _ H).
Qed.

(** X2: the file parts are stored before the id is validated: a creation
    request that is answered 400 for its id adds no record, and the bytes
    of its file part are on disk all the same. *)
Theorem rejected_creation_keeps_file m w b file s :
  field b "id" = JsString s ->
  js_isNaN (JsString s) = true ->
  let '(r, w') := post_posts env w b (only m file) in
  status r = 400
  /\ posts w' = posts w
  /\ disk w' !! stored_path env (draws w) file = Some (buffer file).
Proof.
  intros Hid Hnan.
  rewrite post_posts_rejected
    by (by rewrite Hid, Hnan, (isNaN_string_truthy _ Hnan)).
  rewrite upload_fields_only. cbn [snd posts disk status].
  split_and!; [done..|]. apply lookup_insert_eq.
Qed.

(** X3: when a creation request carries an image part and a video part
    and each has a content type of its own kind, each reference of the
    new record spells the path of a file that holds the bytes of its
    part: neither part is stored over the other, and both are where the
    record says. *)
Theorem both_parts_are_where_referenced w b i v :
  classified i = Image ->
  classified v = Video ->
  status (fst (post_posts env w b (mkParts (Some i) (Some v)))) = 201 ->
  let '(r, w') := post_posts env w b (mkParts (Some i) (Some v)) in
  exists pi pv,
    json_get "post" (body r) ≫= json_get "image" = Some (JStr ("/" ++ pi))
    /\ json_get "post" (body r) ≫= json_get "video"
       = Some (JStr ("/" ++ pv))
    /\ pi = stored_path env (draws w) i
    /\ pv = stored_path env (S (draws w)) v
    /\ disk w' !! pi = Some (buffer i)
    /\ disk w' !! pv = Some (buffer v).
Proof.
  intros Hi Hv Hok.
  rewrite (post_posts_accepted _ _ _ (post_posts_201 _ _ _ Hok)).
  cbv zeta. rewrite upload_fields_both. cbn [fst snd disk].
  exists (stored_path env (draws w) i), (stored_path env (S (draws w)) v).
  unfold stored_path. rewrite !destination_classified, Hi, Hv.
  split_and!.
  - by apply (string_media_member Image).
  - by apply (string_media_member Video).
  - done.
  - done.
  - cbn [disk].
    rewrite lookup_insert_ne by (simpl; intros H; discriminate H).
    apply lookup_insert_eq.
  - cbn [disk]. apply lookup_insert_eq.
Qed.

(** *** What stays on disk *)

Lemma upload_fields_disk_mono w parts path :
  is_Some (disk w !! path) ->
  is_Some (disk (snd (upload_fields env w parts)) !! path).
Proof.
  intros H. destruct parts as [[i|] [v|]]; cbn;
    repeat (apply lookup_insert_is_Some'; right); done.
Qed.

Lemma handle_disk w r :
  if is_creation r
  then forall path, is_Some (disk w !! path) ->
                    is_Some (disk (snd (handle env w r)) !! path)
  else disk (snd (handle env w r)) = disk w.
Proof.
  destruct r as [b parts| |rid|rid b|rid]; simpl.
  - intros path H. rewrite post_posts_disk. by apply upload_fields_disk_mono.
  - done.
  - unfold get_post. by destruct (List.find _ _).
  - unfold put_post. by destruct (List.find _ _).
  - unfold delete_post. by destruct (findIndex _ _).
Qed.

(** X4: no request removes a file: every path that holds a file holds one
    after any sequence of requests.  Requests other than creations leave
    the disk as it is; in particular the media of a deleted post stay
    where they were, and the static route keeps serving them. *)
Theorem files_are_never_removed w rs :
  (forall path, is_Some (disk w !! path) ->
                is_Some (disk (snd (serve env w rs)) !! path))
  /\ (forallb (fun r => negb (is_creation r)) rs = true ->
      disk (snd (serve env w rs)) = disk w)
  /\ forall rid url,
       serve_static (snd (delete_post w rid)) url = serve_static w url.
Proof.
  split_and!.
  - revert w. induction rs as [|r rs IH]; intros w path H; [done|].
    rewrite serve_cons. apply IH.
    pose proof (handle_disk w r) as Hr. destruct (is_creation r).
    + by apply Hr.
    + by rewrite Hr.
  - revert w. induction rs as [|r rs IH]; intros w; [done|].
    cbn [forallb]. rewrite andb_true_iff. intros [Hr Hrs].
    rewrite serve_cons, IH by done.
    pose proof (handle_disk w r) as Hd.
    destruct (is_creation r); [done|exact Hd].
  - intros rid url. unfold serve_static, delete_post.
    by destruct (findIndex _ _).
Qed.

Lemma handle_draws w r : draws w <= draws (snd (handle env w r)).
Proof.
  destruct r as [b parts| |rid|rid b|rid]; simpl.
  - assert (draws w <= draws (snd (upload_fields env w parts))) as Hup
      by (destruct parts as [[i|] [v|]]; cbn; lia).
    destruct (truthy (field b "id") && js_isNaN (field b "id")) eqn:E.
    + by rewrite (post_posts_rejected _ _ _ E).
    + rewrite (post_posts_accepted _ _ _ E). cbn [snd draws].
      destruct (truthy (field b "id")); lia.
  - done.
  - unfold get_post. by destruct (List.find _ _).
  - unfold put_post. by destruct (List.find _ _).
  - unfold delete_post. by destruct (findIndex _ _).
Qed.

Lemma stored_path_inj n f m g :
  tokens_never_collide env ->
  stored_path env n f = stored_path env m g -> n = m.
Proof.
  intros Htok. unfold stored_path. rewrite !destination_classified.
  intros H. pose proof (media_dir_inj _ _ _ _ H) as Hm. rewrite Hm in H.
  unfold filename in H.
  destruct (classified g); simpl in H; injection H as H;
    exact (Htok _ _ _ _ H).
Qed.

Lemma upload_fields_keeps_file w parts k file bytes :
  tokens_never_collide env ->
  k < draws w ->
  disk w !! stored_path env k file = Some bytes ->
  disk (snd (upload_fields env w parts)) !! stored_path env k file
  = Some bytes.
Proof.
  intros Htok Hk H.
  destruct parts as [[i|] [v|]]; cbn;
    rewrite ?lookup_insert_ne; try done;
    intros E; apply stored_path_inj in E; try done; lia.
Qed.

Lemma serve_keeps_file rs w k file bytes :
  tokens_never_collide env ->
  k < draws w ->
  disk w !! stored_path env k file = Some bytes ->
  disk (snd (serve env w rs)) !! stored_path env k file = Some bytes.
Proof.
  intros Htok. revert w. induction rs as [|r rs IH]; intros w Hk H; [done|].
  rewrite serve_cons. apply IH.
  - pose proof (handle_draws w r). lia.
  - pose proof (handle_disk w r) as Hd.
    destruct r as [b parts| |rid|rid b|rid]; cbn [is_creation] in Hd;
      [|by rewrite Hd..].
    cbn [handle]. rewrite post_posts_disk. by apply upload_fields_keeps_file.
Qed.

(** X5: when the tokens of the generator never collide, the file of an
    uploaded part is never overwritten: after the creation request, and
    after any sequence of further requests, the file that the part was
    stored in holds the uploaded bytes. *)
Theorem upload_is_never_overwritten m w b file rs :
  tokens_never_collide env ->
  let w1 := snd (post_posts env w b (only m file)) in
  disk (snd (serve env w1 rs)) !! stored_path env (draws w) file
  = Some (buffer file).
Proof.
  intros Htok. cbv zeta. apply serve_keeps_file; [done| |].
  - pose proof (handle_draws w (POST_posts b (only m file))) as Hd.
    simpl in Hd.
    destruct (truthy (field b "id") && js_isNaN (field b "id")) eqn:E.
    + rewrite (post_posts_rejected _ _ _ E), upload_fields_only. simpl. lia.
    + rewrite (post_posts_accepted _ _ _ E), upload_fields_only.
      cbn [snd draws]. destruct (truthy (field b "id")); lia.
  - rewrite post_posts_disk, upload_fields_only. cbn [snd disk].
    apply lookup_insert_eq.
Qed.

(** *** Updates *)

Lemma js_or_idem a o : js_or a (js_or a o) = js_or a o.
Proof. unfold js_or. by destruct (truthy a) eqn:E; rewrite ?E. Qed.

Lemma assign_fields_idem b post :
  assign_fields b (assign_fields b post) = assign_fields b post.
Proof. unfold assign_fields. simpl. by rewrite !js_or_idem. Qed.

Lemma assign_fields_has_id rid b post :
  has_id rid (assign_fields b post) = has_id rid post.
Proof. done. Qed.

(** X6: an update is idempotent: sent a second time with the same body, a
    [PUT /posts/rid] gives the same answer and leaves the state that the
    first one left. *)
Theorem put_is_idempotent w rid b :
  put_post (snd (put_post w rid b)) rid b = put_post w rid b.
Proof.
  destruct (List.find (has_id rid) (posts w)) as [post|] eqn:Hfind.
  - rewrite (put_post_found _ _ b _ Hfind). cbn [snd].
    erewrite put_post_found.
    + cbn [posts disk draws]. rewrite assign_fields_idem.
      rewrite mutate_found_idem; [done| |].
      * intros x. by rewrite assign_fields_has_id.
      * intros x. apply assign_fields_idem.
    + cbn [posts]. rewrite find_mutate_found, Hfind; [done|].
      intros x. by rewrite assign_fields_has_id.
  - rewrite (put_post_absent _ _ b Hfind). cbn [snd].
    by apply put_post_absent.
Qed.

Lemma js_or_truthy a o : truthy o = true -> truthy (js_or a o) = true.
Proof. unfold js_or. by destruct (truthy a) eqn:E. Qed.

Lemma js_or_falsy a o : truthy a = false -> js_or a o = o.
Proof. unfold js_or. by intros ->. Qed.

(** X7: an update cannot clear a field.  A title, description or actress
    that is truthy in the record found is truthy after the update; and an
    update whose three fields are all absent or falsy is answered 200 and
    leaves the state as it was. *)
Theorem put_cannot_clear w rid b post :
  List.find (has_id rid) (posts w) = Some post ->
  let '(r, w') := put_post w rid b in
  (exists post',
      List.find (has_id rid) (posts w') = Some post'
      /\ (truthy (title post) = true -> truthy (title post') = true)
      /\ (truthy (description post) = true ->
          truthy (description post') = true)
      /\ (truthy (actress post) = true -> truthy (actress post') = true))
  /\ (truthy (field b "title") = false ->
      truthy (field b "description") = false ->
      truthy (field b "actress") = false ->
      status r = 200 /\ w' = w).
Proof.
  intros Hfind. rewrite (put_post_found _ _ b _ Hfind). split.
  - exists (assign_fields b post). split_and!.
    + cbn [posts]. rewrite find_mutate_found, Hfind; [done|].
      intros x. by rewrite assign_fields_has_id.
    + apply js_or_truthy.
    + apply js_or_truthy.
    + apply js_or_truthy.
  - intros Ht Hd Ha. split; [done|].
    rewrite mutate_found_fixed; [by destruct w|].
    intros [i t d im v a] _. unfold assign_fields. simpl.
    by rewrite !js_or_falsy.
Qed.

(** *** Deletions *)

Lemma has_id_other rid rid' p :
  has_id rid p = true -> rid' <> rid -> has_id rid' p = false.
Proof.
  intros H Hne. apply has_id_true in H.
  destruct (has_id rid' p) eqn:E; [|done].
  apply has_id_true in E. congruence.
Qed.

(** X8: a [DELETE /posts/rid] that is answered 200 removes one record,
    the first with that id: the records with that id that remain are the
    later ones, in their order, and the records with any other id are the
    same as before, in their order. *)
Theorem delete_removes_first_match w rid :
  status (fst (delete_post w rid)) = 200 ->
  let w' := snd (delete_post w rid) in
  length (posts w) = S (length (posts w'))
  /\ List.filter (has_id rid) (posts w')
     = tail (List.filter (has_id rid) (posts w))
  /\ forall rid', rid' <> rid ->
       List.filter (has_id rid') (posts w')
       = List.filter (has_id rid') (posts w).
Proof.
  unfold delete_post.
  destruct (findIndex (has_id rid) (posts w)) as [i|] eqn:Hi; [|done].
  intros _. cbn [snd posts].
  destruct (findIndex_split _ _ _ Hi) as (l1 & x & l2 & -> & _ & Hx & Hl1 & ->).
  split_and!.
  - rewrite !length_app. simpl. lia.
  - rewrite !List.filter_app, Hl1. simpl. by rewrite Hx.
  - intros rid' Hne. rewrite !List.filter_app. simpl.
    by rewrite (has_id_other _ _ _ Hx Hne).
Qed.

(** *** Creations and what follows them *)

Lemma find_snoc_absent rid (l : list Post) p :
  List.find (has_id rid) l = None -> id p = JsString rid ->
  List.find (has_id rid) (l ++ [p]) = Some p.
Proof.
  intros Hl Hp. rewrite find_app_None by done. simpl.
  by rewrite (proj2 (has_id_true rid p) Hp).
Qed.

(** X9: a creation round trip.  A creation request whose id field is
    absent or a string, and that is answered 201, yields a record whose id
    is a string: the supplied one when it is not empty, the next token of
    the generator otherwise.  When no earlier record has that id,
    [GET /posts/id] then answers 200 with the very record of the 201
    response. *)
Theorem create_then_get w b parts :
  field b "id" = JsUndefined \/ (exists t, field b "id" = JsString t) ->
  status (fst (post_posts env w b parts)) = 201 ->
  let '(r1, w1) := post_posts env w b parts in
  exists p s,
    r1 = {| status := 201; body := created_body p |}
    /\ id p = JsString s
    /\ (forall t, field b "id" = JsString t -> t <> "" -> s = t)
    /\ (truthy (field b "id") = false ->
        s = uuidv4 env (draws (snd (upload_fields env w parts))))
    /\ (List.find (has_id s) (posts w) = None ->
        get_post w1 s = ({| status := 200; body := post_json p |}, w1)
        /\ json_get "post" (body r1) = Some (body (fst (get_post w1 s)))).
Proof.
  intros Hfield Hok.
  rewrite (post_posts_accepted _ _ _ (post_posts_201 _ _ _ Hok)).
  cbv zeta. set (p := new_post _ _ _ _).
  assert (exists s, id p = JsString s
            /\ (forall t, field b "id" = JsString t -> t <> "" -> s = t)
            /\ (truthy (field b "id") = false ->
                s = uuidv4 env (draws (snd (upload_fields env w parts)))))
    as (s & Hs & Hsup & Hgen).
  { subst p. simpl. destruct Hfield as [Hu|[t Ht]].
    - rewrite Hu. simpl. eexists. split_and!; [done| |done]. congruence.
    - rewrite Ht. destruct (truthy (JsString t)) eqn:E.
      + exists t. split_and!; [done| |done]. congruence.
      + eexists. split_and!; [done| |done].
        intros t' [= <-] Hne. apply truthy_string in Hne. congruence. }
  exists p, s. split_and!; [done..|]. intros Hfresh.
  rewrite (get_post_found _ s p); [done|]. cbn [posts].
  by apply find_snoc_absent.
Qed.

(** X10: a creation undone.  After a creation request whose id field is
    absent or a string and that is answered 201, the new record is the
    last of the array and its id is a string; when no earlier record has
    that id, [DELETE /posts/id] is answered 200 and leaves the array of
    posts as it was before the creation. *)
Theorem create_then_delete w b parts :
  field b "id" = JsUndefined \/ (exists t, field b "id" = JsString t) ->
  status (fst (post_posts env w b parts)) = 201 ->
  let w1 := snd (post_posts env w b parts) in
  exists p s,
    posts w1 = (posts w ++ [p])%list
    /\ id p = JsString s
    /\ (List.find (has_id s) (posts w) = None ->
        status (fst (delete_post w1 s)) = 200
        /\ posts (snd (delete_post w1 s)) = posts w).
Proof.
  intros Hfield Hok.
  rewrite (post_posts_accepted _ _ _ (post_posts_201 _ _ _ Hok)).
  cbv zeta. cbn [snd posts]. set (p := new_post _ _ _ _).
  assert (exists s, id p = JsString s) as [s Hs].
  { subst p. simpl. destruct Hfield as [Hu|[t Ht]].
    - rewrite Hu. simpl. eauto.
    - rewrite Ht. destruct (truthy (JsString t)); eauto. }
  exists p, s. split_and!; [done..|]. intros Hfresh.
  erewrite delete_post_found.
  - cbn [fst snd status posts]. split; [done|]. apply delete_snoc.
  - cbn [posts]. apply findIndex_app_absent.
    + by apply find_None_findIndex.
    + by apply has_id_true.
Qed.

(** X11: a post created with an id that an earlier record has is
    shadowed by that record: [GET /posts/id] answers with the earlier
    record, and neither [PUT /posts/id] nor [DELETE /posts/id] touches the
    new one, which stays the last record of the array. *)
Theorem duplicate_id_is_shadowed w b parts s q :
  field b "id" = JsString s ->
  js_isNaN (JsString s) = false ->
  List.find (has_id s) (posts w) = Some q ->
  let w1 := snd (post_posts env w b parts) in
  exists p,
    posts w1 = (posts w ++ [p])%list
    /\ fst (get_post w1 s) = {| status := 200; body := post_json q |}
    /\ (forall b',
          status (fst (put_post w1 s b')) = 200
          /\ last (posts (snd (put_post w1 s b'))) = Some p)
    /\ status (fst (delete_post w1 s)) = 200
    /\ last (posts (snd (delete_post w1 s))) = Some p.
Proof.
  intros Hid Hnum Hq.
  rewrite post_posts_accepted by (rewrite Hid, Hnum; apply andb_false_r).
  cbv zeta. cbn [snd]. set (p := new_post _ _ _ _). set (w1 := mkWorld _ _ _).
  assert (List.find (has_id s) (posts w1) = Some q) as Hq1
    by (by apply find_app_Some).
  exists p. split_and!.
  - done.
  - by rewrite (get_post_found _ _ _ Hq1).
  - intros b'. rewrite (put_post_found _ _ b' _ Hq1). split; [done|].
    cbn [snd posts]. subst w1. cbn [posts].
    rewrite (mutate_found_app_found _ _ _ _ _ Hq). apply last_snoc.
  - destruct (find_Some_findIndex _ _ _ Hq1) as (i & Hi & _).
    by rewrite (delete_post_found _ _ _ Hi).
  - destruct (find_Some_findIndex _ _ _ Hq) as (i & Hi & Hlook & _).
    rewrite (delete_post_found w1 s i)
      by (by apply findIndex_app_found).
    cbn [snd posts]. subst w1. cbn [posts].
    rewrite delete_app_lt by (by eapply lookup_lt_Some).
    apply last_snoc.
Qed.

(** *** Counting *)

Lemma handle_count w r :
  let '(resp, w') := handle env w r in
  length (posts w') + (if is_deleted (r, resp) then 1 else 0)
  = length (posts w) + (if is_created (r, resp) then 1 else 0).
Proof.
  destruct r as [b parts| |rid|rid b|rid]; cbn [handle].
  - destruct (truthy (field b "id") && js_isNaN (field b "id")) eqn:E.
    + rewrite (post_posts_rejected _ _ _ E), upload_fields_posts. simpl. lia.
    + rewrite (post_posts_accepted _ _ _ E). cbv zeta. simpl.
      rewrite length_app. simpl. lia.
  - simpl. lia.
  - unfold get_post. destruct (List.find _ _); simpl; lia.
  - unfold put_post. destruct (List.find _ _); simpl;
      rewrite ?mutate_found_length; lia.
  - unfold delete_post.
    destruct (findIndex (has_id rid) (posts w)) as [i|] eqn:Hi;
      [|simpl; lia].
    destruct (findIndex_split _ _ _ Hi) as (l1 & x & l2 & Hl & _ & _ & _ & Hd).
    cbn [posts]. rewrite Hd, Hl, !length_app. simpl. lia.
Qed.

(** X12: along any sequence of requests, the number of posts grows by the
    number of creations answered 201 and shrinks by the number of
    deletions answered 200, and by nothing else. *)
Theorem posts_are_counted w rs :
  let '(resps, w') := serve env w rs in
  length resps = length rs
  /\ length (posts w') + tally is_deleted rs resps
     = length (posts w) + tally is_created rs resps.
Proof.
  revert w. induction rs as [|r rs IH]; intros w; [done|].
  cbn [serve]. pose proof (handle_count w r) as Hr.
  destruct (handle env w r) as [resp w1].
  specialize (IH w1). destruct (serve env w1 rs) as [resps w2].
  destruct IH as [Hlen IH]. split; [simpl; by rewrite Hlen|].
  unfold tally in *. cbn [combine List.filter].
  destruct (is_deleted (r, resp)), (is_created (r, resp)); simpl; lia.
Qed.

(** *** Which ids the validation lets through *)

(** X13: every id that is a non-empty string of decimal digits passes the
    validation: the request is answered 201 and the record carries the
    string as its id. *)
Theorem digit_id_is_accepted w b parts s :
  s <> "" ->
  forallb StringToNumber.is_decimal_digit (list_ascii_of_string s) = true ->
  field b "id" = JsString s ->
  let '(r, w') := post_posts env w b parts in
  exists p,
    r = {| status := 201; body := created_body p |}
    /\ posts w' = (posts w ++ [p])%list
    /\ id p = JsString s.
Proof.
  intros Hne Hds Hid.
  assert (js_isNaN (JsString s) = false) as Hnum.
  { apply isNaN_string_iff, NumericAlphabet.digits_in_grammar; [|done].
    by destruct s. }
  rewrite post_posts_accepted by (rewrite Hid, Hnum; apply andb_false_r).
  cbv zeta. eexists. split_and!; [done..|].
  simpl. rewrite Hid. apply truthy_string in Hne. by rewrite Hne.
Qed.

(** X14: an id with a character that no numeric string contains (any
    character other than white space, the digits, the signs, the dot and
    the letters of the hexadecimal digits, of the radix prefixes and of
    [Infinity]) is rejected: the request is answered 400 and adds no
    record. *)
Theorem id_outside_alphabet_is_rejected w b parts s c :
  field b "id" = JsString s ->
  In c (list_ascii_of_string s) ->
  numeric_alphabet c = false ->
  let '(r, w') := post_posts env w b parts in
  r = {| status := 400; body := message "ID must be a valid number" |}
  /\ posts w' = posts w.
Proof.
  intros Hid Hc Hout.
  assert (js_isNaN (JsString s) = true) as Hnan.
  { destruct (js_isNaN (JsString s)) eqn:E; [done|].
    apply isNaN_string_iff, NumericAlphabet.grammar_in in E.
    rewrite Forall_forall in E. apply list_elem_of_In in Hc.
    specialize (E c Hc). congruence. }
  rewrite post_posts_rejected
    by (by rewrite Hid, Hnan, (isNaN_string_truthy _ Hnan)).
  split; [done|]. apply upload_fields_posts.
Qed.

(** *** Records along a sequence of requests *)

Lemma kept_refl p : kept p p.
Proof. by repeat split. Qed.

Lemma kept_trans p1 p2 p3 : kept p1 p2 -> kept p2 p3 -> kept p1 p3.
Proof.
  intros (A1 & A2 & A3 & A4 & A5 & A6) (B1 & B2 & B3 & B4 & B5 & B6).
  repeat split; try congruence; auto.
Qed.

Lemma kept_assign_fields b p : kept p (assign_fields b p).
Proof. repeat split; apply js_or_truthy. Qed.

Lemma index_after_kept w r k k' p :
  posts w !! k = Some p ->
  index_after w r k = Some k' ->
  exists p',
    posts (snd (handle env w r)) !! k' = Some p' /\ kept p p' /\ k' <= k.
Proof.
  intros Hp Hk. pose proof (handle_posts w r) as H. simpl in H.
  destruct r as [b parts| |rid|rid b|rid]; simpl in Hk.
  - injection Hk as <-. exists p. split_and!; [|apply kept_refl|done].
    destruct H as [->|[_ ->]]; [done|].
    rewrite lookup_app_l; [done|]. by eapply lookup_lt_Some.
  - injection Hk as <-. exists p. rewrite H. by split_and!; [|apply kept_refl|].
  - injection Hk as <-. exists p. rewrite H. by split_and!; [|apply kept_refl|].
  - injection Hk as <-. rewrite H.
    destruct (mutate_found_lookup (has_id rid) (assign_fields b) _ _ _ Hp)
      as (y & Hy & [->| ->]).
    + exists p. by split_and!; [|apply kept_refl|].
    + eexists. split_and!; [done|apply kept_assign_fields|done].
  - destruct (findIndex (has_id rid) (posts w)) as [i|].
    + rewrite H. destruct (decide (i = k)) as [|Hne]; [done|].
      exists p. destruct (decide (i < k)); injection Hk as <-.
      * split_and!; [|apply kept_refl|lia].
        rewrite list_lookup_delete_ge by lia.
        by replace (S (pred k)) with k by lia.
      * split_and!; [|apply kept_refl|lia].
        rewrite list_lookup_delete_lt by lia. done.
    + injection Hk as <-. exists p. rewrite H.
      by split_and!; [|apply kept_refl|].
Qed.

(** X15: for as long as a record is in the array, whatever requests are
    served, its id, image and video are what they were, a title,
    description or actress that it had is never emptied, and it is never
    further from the front of the array than it was. *)
Theorem record_is_kept rs w k k' p :
  posts w !! k = Some p ->
  index_after_all env w rs k = Some k' ->
  exists p',
    posts (snd (serve env w rs)) !! k' = Some p' /\ kept p p' /\ k' <= k.
Proof.
  revert w k p. induction rs as [|r rs IH]; intros w k p Hp; simpl.
  - intros [= <-]. exists p. by split_and!; [|apply kept_refl|].
  - destruct (index_after w r k) as [k1|] eqn:Hk1; [|done]. intros Hk'.
    destruct (index_after_kept _ _ _ _ _ Hp Hk1) as (p1 & Hp1 & Hkept1 & Hle1).
    destruct (IH _ _ _ Hp1 Hk') as (p' & Hp' & Hkept & Hle).
    exists p'. pose proof (serve_cons w r rs) as E. simpl in E.
    rewrite E. split_and!; [done| |lia]. by eapply kept_trans.
Qed.

(** *** Generated ids *)

Lemma serve_draws rs w : draws w <= draws (snd (serve env w rs)).
Proof.
  revert w. induction rs as [|r rs IH]; intros w; [done|].
  rewrite serve_cons. pose proof (handle_draws w r).
  specialize (IH (snd (handle env w r))). lia.
Qed.

Lemma upload_fields_draws w parts :
  draws w <= draws (snd (upload_fields env w parts)).
Proof. destruct parts as [[i|] [v|]]; cbn; lia. Qed.

(** X16: when the tokens of the generator never collide, two creation
    requests without an id, with any requests served between them, give
    their records different ids. *)
Theorem generated_ids_differ w b1 parts1 rs b2 parts2 :
  tokens_never_collide env ->
  truthy (field b1 "id") = false ->
  truthy (field b2 "id") = false ->
  let w1 := snd (post_posts env w b1 parts1) in
  let w2 := snd (serve env w1 rs) in
  let w3 := snd (post_posts env w2 b2 parts2) in
  exists p1 p2,
    last (posts w1) = Some p1 /\ last (posts w3) = Some p2
    /\ id p1 <> id p2.
Proof.
  intros Htok H1 H2. cbv zeta.
  rewrite (post_posts_accepted w) by (by rewrite H1).
  cbv zeta. cbn [snd]. set (w1 := mkWorld _ _ _).
  rewrite (post_posts_accepted (snd (serve env w1 rs)))
    by (by rewrite H2).
  cbv zeta. cbn [snd posts]. rewrite !last_snoc.
  do 2 eexists. split_and!; [apply last_snoc|done|].
  simpl. rewrite H1, H2. intros [= E].
  pose proof (serve_draws rs w1) as Hd.
  pose proof (upload_fields_draws (snd (serve env w1 rs)) parts2) as Hu.
  assert (draws w1 = S (draws (snd (upload_fields env w parts1)))) as Hw1
    by (subst w1; simpl; by rewrite H1).
  assert (draws (snd (upload_fields env w parts1))
          = draws (snd (upload_fields env (snd (serve env w1 rs)) parts2)))
    as Heq.
  { apply (Htok _ _ "" ""). by rewrite E. }
  lia.
Qed.

End HandlerFacts.

(** ** The claims on concrete requests *)

(** C1: a creation request whose image part has the content type
    [video/mp4] is answered 201 with an image reference under
    [/uploads/images/], while the uploaded bytes are in the file of that
    name under [uploads/videos]; no file is at the place the reference
    names, and the static route finds nothing there. *)
Theorem image_reference_misses_stored_file :
  let '(r, w') :=
    post_posts sample_env initial_world
      {[ "title" := JsString "clip" ]} mislabelled_image in
  let name := "1b9d6bcd-bbfd-4b2d-9b5d-ab8dfbbd4b10-1700000000000.mp4" in
  status r = 201
  /\ json_get "post" (body r) ≫= json_get "image"
     = Some (JStr ("/uploads/images/" ++ name))
  /\ disk w' !! ("uploads/videos/" ++ name) = Some [x01; x02; x03]%byte
  /\ disk w' !! ("uploads/images/" ++ name) = None
  /\ serve_static w' ("/uploads/images/" ++ name) = None.
Proof. vm_compute. split_and!; reflexivity. Qed.

(** C2 as stated fails: with a post of id 42 in the array, a second
    creation with id 42 is answered 201, and [GET /posts/42] answers with
    the older record. *)
Lemma created_42_read_back_counterexample :
  field {[ "id" := JsString "42"; "title" := JsString "newer" ]} "id"
  = JsString "42"
  /\ ~ reads_back_created sample_env
         older_42 {[ "id" := JsString "42"; "title" := JsString "newer" ]}
         no_parts.
Proof.
  split; [reflexivity|]. vm_compute. intros (_ & _ & H). discriminate H.
Qed.

Lemma created_42_read_back_witness :
  field {[ "id" := JsString "42"; "title" := JsString "A" ]} "id"
  = JsString "42"
  /\ status (fst (post_posts sample_env older_42
                    {[ "id" := JsString "42"; "title" := JsString "A" ]}
                    no_parts)) = 201
  /\ List.find (has_id "42") (posts one_five) = None
  /\ reads_back_created sample_env
       one_five {[ "id" := JsString "42"; "title" := JsString "A" ]} no_parts.
Proof.
  split; [reflexivity|]. split.
  - pose proof (created_42_read_back sample_env older_42
                  {[ "id" := JsString "42"; "title" := JsString "A" ]}
                  no_parts eq_refl) as H.
    destruct (post_posts sample_env older_42 _ _) as [r1 w1].
    destruct H as (p & -> & _). reflexivity.
  - split; [reflexivity|].
    pose proof (created_42_read_back sample_env one_five
                  {[ "id" := JsString "42"; "title" := JsString "A" ]}
                  no_parts eq_refl) as H.
    destruct (post_posts sample_env one_five _ _) as [r1 w1].
    destruct H as (p & _ & _ & _ & _ & _ & _ & H & _).
    exact (proj1 (H eq_refl)).
Defined.

(** C3 as stated fails: with two posts of id 5 in the array,
    [DELETE /posts/5] is answered 200 and the following [GET /posts/5] is
    answered 200 with the second of them. *)
Lemma delete_then_not_found_counterexample :
  ~ gone_after_delete two_fives "5".
Proof.
  vm_compute. intros H. destruct (H eq_refl) as [H1 _]. discriminate H1.
Qed.

Lemma delete_then_not_found_witness :
  length (List.filter (has_id "5") (posts one_five)) = 1
  /\ status (fst (delete_post one_five "5")) = 200
  /\ gone_after_delete one_five "5"
  /\ delete_post initial_world "5"
     = ({| status := 404; body := message "Post not found" |}, initial_world).
Proof.
  split; [reflexivity|].
  destruct (delete_then_not_found one_five "5") as [H _].
  destruct (H eq_refl) as [H1 H2]. split; [exact H1|]. split; [exact H2|].
  destruct (delete_then_not_found initial_world "5") as [_ H0].
  exact (proj2 (proj2 (H0 eq_refl ∅))).
Defined.

Lemma put_coalesces_on_truthy_witness :
  List.find (has_id "5") (posts one_five)
  = Some (mkPost (JsString "5") (JsString "first") JsUndefined JsNull JsNull
            JsUndefined)
  /\ exists post',
       fst (put_post one_five "5" {[ "title" := JsString "";
                                     "actress" := JsString "C" ]})
       = {| status := 200; body := updated_body post' |}
       /\ title post' = JsString "first"
       /\ description post' = JsUndefined
       /\ actress post' = JsString "C".
Proof.
  split; [reflexivity|].
  pose proof (put_coalesces_on_truthy one_five "5"
                {[ "title" := JsString ""; "actress" := JsString "C" ]}
                _ eq_refl) as H.
  destruct (put_post one_five "5" _) as [r w'].
  destruct H as (post' & -> & _ & [_ Ht] & [_ Hd] & [Ha _] & _).
  exists post'. split_and!.
  - reflexivity.
  - apply Ht. reflexivity.
  - apply Hd. reflexivity.
  - apply Ha. reflexivity.
Defined.

Lemma invalid_id_rejected_witness :
  js_isNaN (JsString "abc") = true
  /\ fst (post_posts sample_env one_five
            {[ "id" := JsString "abc" ]} mislabelled_image)
     = {| status := 400; body := message "ID must be a valid number" |}
  /\ posts (snd (post_posts sample_env
                   one_five {[ "id" := JsString "abc" ]} mislabelled_image))
     = posts one_five.
Proof.
  split; [reflexivity|].
  pose proof (invalid_id_rejected sample_env one_five
                {[ "id" := JsString "abc" ]}
                mislabelled_image "abc" eq_refl eq_refl) as H.
  destruct (post_posts _ one_five _ _) as [r w'].
  destruct H as (H1 & H2 & _). split; [exact H1|exact H2].
Defined.

Lemma ids_stay_nonempty_witness :
  (forall n, uuidv4 sample_env n <> "")
  /\ ids_nonempty
       (snd (sample_serve initial_world
               [sample_post "5" "first"; POST_posts ∅ mislabelled_image;
                PUT_post "5" {[ "id" := JsString "" ]}; DELETE_post "5";
                POST_posts {[ "id" := JsString "" ]} no_parts]))
  /\ exists p,
       posts (snd (post_posts sample_env one_five
                     {[ "id" := JsString "" ]} mislabelled_image))
       = (posts one_five ++ [p])%list
       /\ id p = JsString (uuidv4 sample_env 1).
Proof.
  assert (forall n, uuidv4 sample_env n <> "") as Huuid
    by (intros n; simpl; unfold sample_uuidv4; simpl; discriminate).
  split; [exact Huuid|].
  destruct (ids_stay_nonempty sample_env Huuid) as (_ & _ & H & Hc).
  split; [apply H|].
  specialize (Hc one_five {[ "id" := JsString "" ]} mislabelled_image).
  cbv zeta in Hc.
  destruct (post_posts sample_env one_five _ _) as [r w'].
  destruct Hc as (_ & _ & Hc).
  destruct (Hc eq_refl) as (_ & p & Hposts & _ & Hid & _).
  exists p. split; [exact Hposts|exact Hid].
Defined.

Lemma listing_in_insertion_order_witness :
  fst (sample_serve initial_world
         [sample_post "1" "A"; sample_post "2" "B"; sample_post "3" "C";
          GET_posts])
  = [ {| status := 201;
         body := created_body (mkPost (JsString "1") (JsString "A")
                                 JsUndefined JsNull JsNull JsUndefined) |};
      {| status := 201;
         body := created_body (mkPost (JsString "2") (JsString "B")
                                 JsUndefined JsNull JsNull JsUndefined) |};
      {| status := 201;
         body := created_body (mkPost (JsString "3") (JsString "C")
                                 JsUndefined JsNull JsNull JsUndefined) |};
      {| status := 200;
         body := JArr (map post_json
                   [mkPost (JsString "1") (JsString "A") JsUndefined JsNull
                      JsNull JsUndefined;
                    mkPost (JsString "2") (JsString "B") JsUndefined JsNull
                      JsNull JsUndefined;
                    mkPost (JsString "3") (JsString "C") JsUndefined JsNull
                      JsNull JsUndefined]) |} ].
Proof.
  destruct (listing_in_insertion_order sample_env initial_world
              {[ "id" := JsString "1"; "title" := JsString "A" ]} no_parts
              {[ "id" := JsString "2"; "title" := JsString "B" ]} no_parts
              {[ "id" := JsString "3"; "title" := JsString "C" ]} no_parts)
    as [(a & b & c & Hposts & _ & _ & _ & Hresp) _].
  - repeat constructor.
  - vm_compute in Hposts. injection Hposts as <- <- <-.
    exact Hresp.
Defined.


Lemma coercible_id_stored_verbatim_witness :
  js_isNaN (JsString "1e5") = false
  /\ map id (posts (snd (post_posts sample_env initial_world
                           {[ "id" := JsString "1e5" ]} no_parts)))
     = [JsString "1e5"].
Proof.
  split; [reflexivity|].
  pose proof (coercible_id_stored_verbatim sample_env initial_world
                {[ "id" := JsString "1e5" ]}
                no_parts "1e5" eq_refl eq_refl) as [_ H].
  destruct (post_posts _ initial_world _ _) as [r w'].
  destruct H as (p & _ & Hposts & Hid & _).
  cbn [snd]. rewrite Hposts. simpl. by rewrite Hid.
Defined.


(** ** Further properties on concrete requests *)

Lemma unary_tokens_never_collide : tokens_never_collide unary_env.
Proof.
  unfold tokens_never_collide. simpl. intros n.
  induction n as [|n IH]; intros [|m] x y H; simpl in H.
  - done.
  - discriminate H.
  - discriminate H.
  - injection H as H. f_equal. by eapply IH.
Qed.

Lemma reference_follows_part_name_witness :
  status (fst (post_posts sample_env initial_world ∅
                 (only Video sample_video))) = 201
  /\ disk (snd (post_posts sample_env initial_world ∅
                  (only Video sample_video)))
     !! ("uploads/videos/" ++ filename sample_env 0 sample_video)
     = Some (buffer sample_video).
Proof.
  split; [reflexivity|].
  pose proof (reference_follows_part_name sample_env Video initial_world ∅
                sample_video eq_refl) as H.
  cbv zeta in H. destruct (post_posts sample_env initial_world ∅ _) as [r w'].
  destruct H as (_ & _ & _ & H & _). apply H. reflexivity.
Defined.

Lemma rejected_creation_keeps_file_witness :
  js_isNaN (JsString "abc") = true
  /\ status (fst (post_posts sample_env one_five {[ "id" := JsString "abc" ]}
                    (only Image sample_image))) = 400
  /\ disk (snd (post_posts sample_env one_five {[ "id" := JsString "abc" ]}
                  (only Image sample_image)))
     !! stored_path sample_env (draws one_five) sample_image
     = Some (buffer sample_image).
Proof.
  split; [reflexivity|].
  pose proof (rejected_creation_keeps_file sample_env Image one_five
                {[ "id" := JsString "abc" ]} sample_image "abc"
                eq_refl eq_refl) as H.
  destruct (post_posts sample_env one_five _ _) as [r w'].
  destruct H as (H1 & _ & H2). split; [exact H1|exact H2].
Defined.

Lemma both_parts_are_where_referenced_witness :
  classified sample_image = Image
  /\ classified sample_video = Video
  /\ disk (snd (post_posts sample_env initial_world ∅
                  (mkParts (Some sample_image) (Some sample_video))))
     !! stored_path sample_env 0 sample_image
     = Some (buffer sample_image)
  /\ disk (snd (post_posts sample_env initial_world ∅
                  (mkParts (Some sample_image) (Some sample_video))))
     !! stored_path sample_env 1 sample_video
     = Some (buffer sample_video).
Proof.
  split; [reflexivity|]. split; [reflexivity|].
  pose proof (both_parts_are_where_referenced sample_env initial_world ∅
                sample_image sample_video eq_refl eq_refl eq_refl) as H.
  destruct (post_posts sample_env initial_world ∅ _) as [r w'].
  destruct H as (pi & pv & _ & _ & -> & -> & H1 & H2).
  split; [exact H1|exact H2].
Defined.

Lemma files_are_never_removed_witness :
  is_Some
    (disk (snd (sample_serve
                  (snd (post_posts sample_env initial_world
                          {[ "id" := JsString "5" ]}
                          (only Video sample_video)))
                  [DELETE_post "5"; sample_post "1" "A"]))
     !! stored_path sample_env 0 sample_video).
Proof.
  apply (proj1 (files_are_never_removed sample_env
                  (snd (post_posts sample_env initial_world
                          {[ "id" := JsString "5" ]}
                          (only Video sample_video)))
                  [DELETE_post "5"; sample_post "1" "A"])).
  exists (buffer sample_video). reflexivity.
Defined.

Lemma upload_is_never_overwritten_witness :
  tokens_never_collide unary_env
  /\ disk (snd (serve unary_env
                  (snd (post_posts unary_env initial_world ∅
                          (only Image sample_image)))
                  [POST_posts ∅ (mkParts (Some sample_image)
                                   (Some sample_image));
                   DELETE_post "0"]))
     !! stored_path unary_env 0 sample_image
     = Some (buffer sample_image).
Proof.
  split; [exact unary_tokens_never_collide|].
  exact (upload_is_never_overwritten unary_env Image initial_world ∅
           sample_image _ unary_tokens_never_collide).
Defined.

Lemma put_cannot_clear_witness :
  List.find (has_id "5") (posts one_five)
  = Some (mkPost (JsString "5") (JsString "first") JsUndefined JsNull JsNull
            JsUndefined)
  /\ snd (put_post one_five "5" {[ "title" := JsString "" ]}) = one_five.
Proof.
  split; [reflexivity|].
  pose proof (put_cannot_clear one_five "5" {[ "title" := JsString "" ]}
                _ eq_refl) as H.
  destruct (put_post one_five "5" _) as [r w'].
  destruct H as [_ H]. by apply H.
Defined.

Lemma delete_removes_first_match_witness :
  status (fst (delete_post two_fives "5")) = 200
  /\ List.filter (has_id "5") (posts (snd (delete_post two_fives "5")))
     = tail (List.filter (has_id "5") (posts two_fives)).
Proof.
  split; [reflexivity|].
  exact (proj1 (proj2 (delete_removes_first_match two_fives "5" eq_refl))).
Defined.

Lemma create_then_get_witness :
  field (∅ : gmap string JsVal) "id" = JsUndefined
  /\ status (fst (post_posts sample_env initial_world ∅ no_parts)) = 201
  /\ json_get "post"
       (body (fst (post_posts sample_env initial_world ∅ no_parts)))
     = Some (body (fst (get_post
                         (snd (post_posts sample_env initial_world ∅
                                 no_parts))
                         (uuidv4 sample_env 0)))).
Proof.
  split; [reflexivity|]. split; [reflexivity|].
  pose proof (create_then_get sample_env initial_world ∅ no_parts
                (or_introl eq_refl) eq_refl) as H.
  destruct (post_posts sample_env initial_world ∅ no_parts) as [r1 w1].
  destruct H as (p & s & _ & _ & _ & Hgen & H).
  rewrite (Hgen eq_refl) in H.
  exact (proj2 (H eq_refl)).
Defined.

Lemma create_then_delete_witness :
  (exists t, field {[ "id" := JsString "7" ]} "id" = JsString t)
  /\ status (fst (post_posts sample_env one_five
                    {[ "id" := JsString "7" ]} no_parts)) = 201
  /\ exists s,
       posts (snd (delete_post
                     (snd (post_posts sample_env one_five
                             {[ "id" := JsString "7" ]} no_parts))
                     s))
       = posts one_five.
Proof.
  assert (exists t, field {[ "id" := JsString "7" ]} "id" = JsString t)
    as Hfield by (exists "7"; reflexivity).
  split; [exact Hfield|]. split; [reflexivity|].
  pose proof (create_then_delete sample_env one_five
                {[ "id" := JsString "7" ]} no_parts
                (or_intror Hfield) eq_refl)
    as (p & s & Hposts & Hid & H).
  exists s. apply H.
  assert (s = "7") as ->; [|reflexivity].
  vm_compute in Hposts. injection Hposts as <-. by injection Hid.
Defined.

Lemma duplicate_id_is_shadowed_witness :
  List.find (has_id "42") (posts older_42)
  = Some (mkPost (JsString "42") (JsString "older") JsUndefined JsNull
            JsNull JsUndefined)
  /\ fst (get_post
            (snd (post_posts sample_env older_42
                    {[ "id" := JsString "42"; "title" := JsString "newer" ]}
                    no_parts)) "42")
     = {| status := 200;
          body := post_json
                    (mkPost (JsString "42") (JsString "older") JsUndefined
                       JsNull JsNull JsUndefined) |}.
Proof.
  split; [reflexivity|].
  pose proof (duplicate_id_is_shadowed sample_env older_42
                {[ "id" := JsString "42"; "title" := JsString "newer" ]}
                no_parts "42" _ eq_refl eq_refl eq_refl) as H.
  cbv zeta in H. destruct H as (p & _ & H & _). exact H.
Defined.

Lemma digit_id_is_accepted_witness :
  forallb StringToNumber.is_decimal_digit (list_ascii_of_string "007") = true
  /\ map id (posts (snd (post_posts sample_env initial_world
                           {[ "id" := JsString "007" ]} no_parts)))
     = [JsString "007"].
Proof.
  split; [reflexivity|].
  pose proof (digit_id_is_accepted sample_env initial_world
                {[ "id" := JsString "007" ]} no_parts "007") as H.
  destruct (post_posts sample_env initial_world _ _) as [r w'].
  destruct H as (p & _ & Hposts & Hid); [done|reflexivity|reflexivity|].
  cbn [snd]. rewrite Hposts. simpl. by rewrite Hid.
Defined.

Lemma id_outside_alphabet_is_rejected_witness :
  In "_"%char (list_ascii_of_string "1_000")
  /\ numeric_alphabet "_" = false
  /\ fst (post_posts sample_env one_five {[ "id" := JsString "1_000" ]}
            no_parts)
     = {| status := 400; body := message "ID must be a valid number" |}.
Proof.
  assert (In "_"%char (list_ascii_of_string "1_000")) as Hin
    by (simpl; auto).
  split; [exact Hin|]. split; [reflexivity|].
  pose proof (id_outside_alphabet_is_rejected sample_env one_five
                {[ "id" := JsString "1_000" ]} no_parts "1_000" "_"
                eq_refl Hin eq_refl) as H.
  destruct (post_posts sample_env one_five _ _) as [r w'].
  exact (proj1 H).
Defined.

Lemma record_is_kept_witness :
  posts two_fives !! 1
  = Some (mkPost (JsString "5") (JsString "second") JsUndefined JsNull
            JsNull JsUndefined)
  /\ exists p',
       posts (snd (sample_serve two_fives
                     [DELETE_post "5";
                      PUT_post "5" {[ "title" := JsString "";
                                      "image" := JsString "x.png" ]}]))
       !! 0 = Some p'
       /\ id p' = JsString "5" /\ image p' = JsNull
       /\ truthy (title p') = true.
Proof.
  split; [reflexivity|].
  pose proof (record_is_kept sample_env
                [DELETE_post "5";
                 PUT_post "5" {[ "title" := JsString "";
                                 "image" := JsString "x.png" ]}]
                two_fives 1 0 _ eq_refl eq_refl)
    as (p' & Hp' & (Hid & Him & _ & Ht & _) & _).
  exists p'. split_and!; [exact Hp'|exact Hid|exact Him|by apply Ht].
Defined.

Lemma generated_ids_differ_witness :
  tokens_never_collide unary_env
  /\ exists p1 p2,
       last (posts (snd (post_posts unary_env initial_world ∅ no_parts)))
       = Some p1
       /\ last (posts (snd (post_posts unary_env
                              (snd (serve unary_env
                                      (snd (post_posts unary_env initial_world
                                              ∅ no_parts))
                                      [DELETE_post "0"]))
                              ∅ (only Image sample_image)))) = Some p2
       /\ id p1 <> id p2.
Proof.
  split; [exact unary_tokens_never_collide|].
  exact (generated_ids_differ unary_env initial_world ∅ no_parts
           [DELETE_post "0"] ∅ (only Image sample_image)
           unary_tokens_never_collide eq_refl eq_refl).
Defined.
